(** * Cursor state, quick-open controller and hover aggregation of the editor

    A shallow embedding of three pieces of the editor sources:

    - [getHover]              (vs/editor/contrib/hover/getHover.ts),
    - [OneCursor]             (vs/editor/common/controller/oneCursor.ts),
    - [QuickOpenController]   (the quick-open contribution that follows
                               [OneCursor] in the same source file).

    Numbers are [Z], JavaScript arrays with holes are a length together with
    a finite map of the indices that are set, promises are values that are
    pending, fulfilled or rejected, and the order in which asynchronous
    callbacks run is an explicit schedule. *)

From stdpp Require Import gmap strings pretty list fin_maps.
From Stdlib Require Import ZArith.

Open Scope Z_scope.

(** ** Core editor values *)

Module Core.

(** [Position]: the fields the sources read are [lineNumber] and [column]. *)
Record Position := mkPosition { lineNumber : Z; column : Z }.

(** [Range]: the fields the sources read. *)
Record Range := mkRange {
  startLineNumber : Z;
  startColumn : Z;
  endLineNumber : Z;
  endColumn : Z
}.

(** [Selection]: a range with a direction, kept by its anchor and its
    active end. *)
Record Selection := mkSelection {
  selectionStartLineNumber : Z;
  selectionStartColumn : Z;
  positionLineNumber : Z;
  positionColumn : Z
}.

#[global] Instance Position_eq_dec : EqDecision Position.
Proof. solve_decision. Defined.

#[global] Instance Range_eq_dec : EqDecision Range.
Proof. solve_decision. Defined.

#[global] Instance Selection_eq_dec : EqDecision Selection.
Proof. solve_decision. Defined.

End Core.

(** ** JavaScript values the sources rely on *)

Module JS.

(** A property of an object: absent ([typeof x === 'undefined']), [null],
    or holding a value. *)
Inductive field (A : Type) : Type :=
| Undefined
| Null
| Value (a : A).
Arguments Undefined {A}.
Arguments Null {A}.
Arguments Value {A} a.

(** [typeof x !== 'undefined'] *)
Definition not_undefined {A} (x : field A) : bool :=
  match x with Undefined => false | _ => true end.

(** An array with holes: its [length] and the indices that hold an
    element. *)
Record array (A : Type) := mkArray {
  length : nat;
  elems : gmap nat A
}.
Arguments mkArray {A} length elems.
Arguments length {A} a.
Arguments elems {A} a.

(** [[]] *)
Definition empty {A} : array A := mkArray 0%nat ∅.

(** [a[idx] = v]: an index at or beyond the length extends the array and
    leaves holes in between. *)
Definition set_index {A} (idx : nat) (v : A) (a : array A) : array A :=
  mkArray (Nat.max (length a) (S idx)) (<[idx := v]> (elems a)).

(** A promise: still pending, or settled one way or the other. *)
Inductive promise (A E : Type) : Type :=
| Pending
| Fulfilled (a : A)
| Rejected (e : E).
Arguments Pending {A E}.
Arguments Fulfilled {A E} a.
Arguments Rejected {A E} e.

(** How a promise ends once it is settled. *)
Inductive settled (A E : Type) : Type :=
| Resolves (a : A)
| Fails (e : E).
Arguments Resolves {A E} a.
Arguments Fails {A E} e.

End JS.


(** ** Hover aggregation: vs/editor/contrib/hover/getHover.ts *)

Module GetHover.

(** The text of one hover entry. *)
Definition MarkedString : Type := string.

(** A hover as a provider hands it out: either property may be missing. *)
Record Hover := mkHover {
  contents : JS.field (list MarkedString);
  range : JS.field Core.Range
}.

(** The token a provider receives. *)
Record CancellationToken := mkToken { isCancellationRequested : bool }.

Section Providers.

Context {Model Err : Type}.

(** What a call of [provideHover] does: it returns a value ([None] stands
    for [null] and [undefined]), throws, or returns a thenable that settles
    later. *)
Inductive answer : Type :=
| Returns (result : option Hover)
| Throws (err : Err)
| ReturnsThenable (later : JS.settled (option Hover) Err).

(** A hover provider. *)
Record HoverProvider := mkProvider {
  provideHover : Model -> Core.Position -> CancellationToken -> answer
}.

(** [HoverProviderRegistry]: the providers that apply to a model, in the
    registry's order. *)
Record Registry := mkRegistry {
  ordered : Model -> list HoverProvider
}.

(** One recorded invocation of [provideHover]. *)
Definition Call : Type := (HoverProvider * Model * Core.Position)%type.

(** Modelled from the spec: [asWinJsPromise] (vs/base/common/async is not
    among the sources). It runs the callback at once with a fresh token and
    yields a promise that settles as the callback's value does; an exception
    of the callback rejects the promise. *)
Definition asWinJsPromise (callback : CancellationToken -> answer)
  : JS.settled (option Hover) Err :=
  match callback (mkToken false) with
  | Returns result => JS.Resolves result
  | Throws err => JS.Fails err
  | ReturnsThenable later => later
  end.

(** [supports.map((support, idx) => asWinJsPromise(...))]: every provider is
    invoked in turn; the log of invocations grows at its end and the promise
    of the provider at index [idx] is the [idx]-th of the list. *)
Fixpoint fan_out (model : Model) (position : Core.Position)
    (supports : list HoverProvider) (log : list Call)
  : list Call * list (JS.settled (option Hover) Err) :=
  match supports with
  | [] => (log, [])
  | support :: rest =>
      let p := asWinJsPromise (fun token => provideHover support model position token) in
      let '(log', ps) := fan_out model position rest (log ++ [(support, model, position)]) in
      (log', p :: ps)
  end.

(** What the callbacks of [getHover] share: the [values] array, the errors
    handed to [onUnexpectedExternalError], and the promises that [then]
    returned and that are settled by now. *)
Record Collect := mkCollect {
  values : JS.array Hover;
  reported : list Err;
  chained : gmap nat (JS.settled unit Err)
}.

(** [typeof result.range !== 'undefined'] *)
Definition hasRange (result : Hover) : bool :=
  JS.not_undefined (range result).

(** [typeof result.contents !== 'undefined' && result.contents &&
    result.contents.length > 0] *)
Definition hasHtmlContent (result : Hover) : bool :=
  JS.not_undefined (contents result)
  && match contents result with
     | JS.Value c => bool_decide (0 < List.length c)%nat
     | _ => false
     end.

(** The success callback of [then]. *)
Definition onResult (idx : nat) (result : option Hover) (c : Collect) : Collect :=
  match result with
  | Some h =>
      if hasRange h && hasHtmlContent h
      then mkCollect (JS.set_index idx h (values c)) (reported c) (chained c)
      else c
  | None => c
  end.

(** Modelled from the spec: [onUnexpectedExternalError] (vs/base/common/errors
    is not among the sources). The error is handed to the error handler and
    the call returns normally. *)
Definition onUnexpectedExternalError (err : Err) (c : Collect) : Collect :=
  mkCollect (values c) (reported c ++ [err]) (chained c).

(** The promise of the provider at [idx] settles: the matching callback of
    [then] runs and the promise that [then] returned is fulfilled with the
    callback's [undefined]. A promise settles once. *)
Definition settle (idx : nat) (p : JS.settled (option Hover) Err) (c : Collect) : Collect :=
  match chained c !! idx with
  | Some _ => c
  | None =>
      let c' := match p with
                | JS.Resolves result => onResult idx result c
                | JS.Fails err => onUnexpectedExternalError err c
                end in
      mkCollect (values c') (reported c') (<[idx := JS.Resolves tt]> (chained c'))
  end.

(** The promises settle in the order of the schedule. *)
Definition settle_all (ps : list (JS.settled (option Hover) Err))
    (schedule : list nat) (c : Collect) : Collect :=
  fold_left (fun c idx =>
               match ps !! idx with
               | Some p => settle idx p c
               | None => c
               end) schedule c.

(** Modelled from the spec: [TPromise.join] (vs/base/common/winjs.base is not
    among the sources). The joined promise is pending until each of the [n]
    promises is settled; it is rejected with the errors when one of them
    failed and fulfilled otherwise. *)
Definition join (n : nat) (done : gmap nat (JS.settled unit Err))
  : JS.promise unit (list Err) :=
  if forallb (fun i => bool_decide (is_Some (done !! i))) (seq 0 n)
  then match omap (fun i => match done !! i with
                            | Some (JS.Fails e) => Some e
                            | _ => None
                            end) (seq 0 n) with
       | [] => JS.Fulfilled tt
       | errs => JS.Rejected errs
       end
  else JS.Pending.

(** Modelled from the spec: [coalesce] (vs/base/common/arrays is not among
    the sources): [array.filter(e => !!e)]. The holes are skipped, and an
    element of [values] is an object, which is truthy. *)
Definition coalesce {A} (a : JS.array A) : list A :=
  omap (fun i => JS.elems a !! i) (seq 0 (JS.length a)).

(** What a run of [getHover] leaves behind. *)
Record Outcome := mkOutcome {
  invoked : list Call;
  errors : list Err;
  returned : JS.promise (list Hover) (list Err)
}.

(** [getHover(model, position)] under a schedule of its providers'
    promises. *)
Definition getHover (registry : Registry) (model : Model) (position : Core.Position)
    (schedule : list nat) : Outcome :=
  let supports := ordered registry model in
  let '(log, promises) := fan_out model position supports [] in
  let c := settle_all promises schedule (mkCollect JS.empty [] ∅) in
  mkOutcome log (reported c)
    match join (List.length promises) (chained c) with
    | JS.Fulfilled _ => JS.Fulfilled (coalesce (values c))
    | JS.Rejected errs => JS.Rejected errs
    | JS.Pending => JS.Pending
    end.

(** The hover a settled provider promise leaves in [values], if any. *)
Definition kept (p : JS.settled (option Hover) Err) : option Hover :=
  match p with
  | JS.Resolves (Some h) => if hasRange h && hasHtmlContent h then Some h else None
  | _ => None
  end.

(** The provider promises of a run, in registry order. *)
Definition promises_of (registry : Registry) (model : Model) (position : Core.Position)
  : list (JS.settled (option Hover) Err) :=
  map (fun support => asWinJsPromise (provideHover support model position))
      (ordered registry model).

(** The hover objects the providers produced, in registry order. *)
Definition produced (ps : list (JS.settled (option Hover) Err)) : list Hover :=
  omap (fun p => match p with JS.Resolves (Some h) => Some h | _ => None end) ps.

(** The provider's promise is rejected: [provideHover] threw or its thenable
    failed. *)
Definition rejects (model : Model) (position : Core.Position) (support : HoverProvider) : bool :=
  match asWinJsPromise (provideHover support model position) with
  | JS.Fails _ => true
  | JS.Resolves _ => false
  end.

(** The registry without the providers whose promise is rejected for
    [model] and [position]. *)
Definition without_rejecting (registry : Registry) (model : Model) (position : Core.Position)
  : Registry :=
  mkRegistry (fun m => filter (fun support => rejects model position support = false)
                              (ordered registry m)).

(** The acceptance test in the words of its description: the range is
    defined, and the contents are defined and not empty. *)
Definition acceptable (h : Hover) : Prop :=
  range h <> JS.Undefined /\
  contents h <> JS.Undefined /\
  exists c, contents h = JS.Value c /\ c <> [].

(** What holds of the shared state once the promises listed in [seen] have
    settled. *)
Definition settled_so_far (ps : list (JS.settled (option Hover) Err))
    (seen : list nat) (c : Collect) : Prop :=
  (forall i, chained c !! i =
             if decide (i ∈ seen) then (fun _ => JS.Resolves tt) <$> ps !! i else None)
  /\ (forall i, JS.elems (values c) !! i =
                if decide (i ∈ seen) then ps !! i ≫= kept else None)
  /\ (forall i, is_Some (JS.elems (values c) !! i) -> (i < JS.length (values c))%nat)
  /\ (JS.length (values c) <= List.length ps)%nat.

(** [getHover] resolves with every hover object its providers produced, in
    registry order. *)
Definition collects_all_produced (registry : Registry) (model : Model)
    (position : Core.Position) (schedule : list nat) : Prop :=
  returned (getHover registry model position schedule)
  = JS.Fulfilled (produced (promises_of registry model position)).

(** A schedule is complete when every provider promise settles in it. *)
Definition complete (n : nat) (schedule : list nat) : Prop :=
  forall i, (i < n)%nat -> i ∈ schedule.

End Providers.

Arguments answer : clear implicits.
Arguments HoverProvider : clear implicits.
Arguments Registry : clear implicits.
Arguments Call : clear implicits.
Arguments Collect : clear implicits.
Arguments Outcome : clear implicits.

End GetHover.


(** ** One cursor: vs/editor/common/controller/oneCursor.ts *)

Module Cursor.

Import Core.

(** [SingleCursorState]: where a selection started and where the cursor is,
    each with the visible columns left over from a vertical move. *)
Record SingleCursorState := mkSingleCursorState {
  selectionStart : Range;
  selectionStartLeftoverVisibleColumns : Z;
  position : Position;
  leftoverVisibleColumns : Z
}.

#[global] Instance SingleCursorState_eq_dec : EqDecision SingleCursorState.
Proof. solve_decision. Defined.

(** [TrackedRangeStickiness] *)
Inductive TrackedRangeStickiness : Set :=
| AlwaysGrowsWhenTypingAtEdges
| NeverGrowsWhenTypingAtEdges
| GrowsOnlyWhenTypingBefore
| GrowsOnlyWhenTypingAfter.

(** Modelled from the spec: [Range.equalsRange] (vs/editor/common/core/range
    is not among the sources). Two ranges are equal when validation would
    leave one as the other: the four coordinates agree. *)
Definition equalsRange (a b : Range) : bool := bool_decide (a = b).

(** Modelled from the spec: [Position.equals] (vs/editor/common/core/position
    is not among the sources): line number and column agree. *)
Definition equals (a b : Position) : bool := bool_decide (a = b).

(** Modelled from the spec: [SingleCursorState.equals] (cursorCommon is not
    among the sources): the two leftovers, the position and the selection
    start agree. *)
Definition SingleCursorState_equals (a b : SingleCursorState) : bool :=
  bool_decide (selectionStartLeftoverVisibleColumns a = selectionStartLeftoverVisibleColumns b)
  && bool_decide (leftoverVisibleColumns a = leftoverVisibleColumns b)
  && equals (position a) (position b)
  && equalsRange (selectionStart a) (selectionStart b).

(** What a call ends with: a value, or a thrown [TypeError]. *)
Inductive completion (A : Type) : Type :=
| Normal (a : A)
| ThrowTypeError.
Arguments Normal {A} a.
Arguments ThrowTypeError {A}.

Section OneCursor.

(** The tracked ranges of the text model, which [_setTrackedRange] updates
    in place. *)
Context {Markers : Type}.

(** [new Range(...)] and the selection a [SingleCursorState] derives from
    its selection start and position: both belong to classes that are not
    among the sources. *)
Variable newRange : Z -> Z -> Z -> Z -> Range.
Variable computeSelection : Range -> Position -> Selection.

(** [CursorContext]: the model with its validation and tracked ranges, and
    the conversions between model and view coordinates. *)
Record CursorContext := mkCursorContext {
  validateRange : Range -> Range;
  validatePosition : Position -> Position;
  _setTrackedRange : option string -> option Selection -> TrackedRangeStickiness ->
                     Markers -> option string * Markers;
  convertViewRangeToModelRange : Range -> Range;
  convertViewPositionToModelPosition : Z -> Z -> Position;
  convertModelPositionToViewPosition : Position -> Position;
  validateViewRange : Range -> Range -> Range;
  validateViewPosition : Position -> Position -> Position
}.

(** [state.selection] *)
Definition selection (state : SingleCursorState) : Selection :=
  computeSelection (selectionStart state) (position state).

(** The fields of a [OneCursor]. *)
Record OneCursor := mkOneCursor {
  modelState : option SingleCursorState;
  viewState : option SingleCursorState;
  _selTrackedRange : option string
}.

(** The first half of [_setState]: the model state, computed from the view
    state when there is none and validated otherwise. Reading
    [viewState.selectionStart] of [null] throws. *)
Definition _setState_modelState (context : CursorContext)
    (modelState viewState : option SingleCursorState) : completion SingleCursorState :=
  match modelState with
  | None =>
      match viewState with
      | None => ThrowTypeError
      | Some viewState =>
          let selectionStart' :=
            validateRange context
              (convertViewRangeToModelRange context (selectionStart viewState)) in
          let position' :=
            validatePosition context
              (convertViewPositionToModelPosition context
                 (lineNumber (position viewState)) (column (position viewState))) in
          Normal (mkSingleCursorState selectionStart'
                    (selectionStartLeftoverVisibleColumns viewState)
                    position'
                    (leftoverVisibleColumns viewState))
      end
  | Some modelState =>
      let selectionStart' := validateRange context (selectionStart modelState) in
      let selectionStartLeftoverVisibleColumns' :=
        if equalsRange (selectionStart modelState) selectionStart'
        then selectionStartLeftoverVisibleColumns modelState else 0 in
      let position' := validatePosition context (position modelState) in
      let leftoverVisibleColumns' :=
        if equals (position modelState) position'
        then leftoverVisibleColumns modelState else 0 in
      Normal (mkSingleCursorState selectionStart' selectionStartLeftoverVisibleColumns'
                position' leftoverVisibleColumns')
  end.

(** The second half of [_setState]: the view state, computed from the new
    model state when there is none and validated against it otherwise. *)
Definition _setState_viewState (context : CursorContext)
    (modelState : SingleCursorState) (viewState : option SingleCursorState)
  : SingleCursorState :=
  match viewState with
  | None =>
      let viewSelectionStart1 :=
        convertModelPositionToViewPosition context
          (mkPosition (startLineNumber (selectionStart modelState))
                      (startColumn (selectionStart modelState))) in
      let viewSelectionStart2 :=
        convertModelPositionToViewPosition context
          (mkPosition (endLineNumber (selectionStart modelState))
                      (endColumn (selectionStart modelState))) in
      let viewSelectionStart :=
        newRange (lineNumber viewSelectionStart1) (column viewSelectionStart1)
                 (lineNumber viewSelectionStart2) (column viewSelectionStart2) in
      let viewPosition :=
        convertModelPositionToViewPosition context (position modelState) in
      mkSingleCursorState viewSelectionStart
        (selectionStartLeftoverVisibleColumns modelState)
        viewPosition
        (leftoverVisibleColumns modelState)
  | Some viewState =>
      let viewSelectionStart :=
        validateViewRange context (selectionStart viewState) (selectionStart modelState) in
      let viewPosition :=
        validateViewPosition context (position viewState) (position modelState) in
      mkSingleCursorState viewSelectionStart
        (selectionStartLeftoverVisibleColumns modelState)
        viewPosition
        (leftoverVisibleColumns modelState)
  end.

(** [this.modelState && this.viewState && this.modelState.equals(modelState)
    && this.viewState.equals(viewState)] *)
Definition unchanged (this : OneCursor) (modelState' viewState' : SingleCursorState) : bool :=
  match modelState this, viewState this with
  | Some thisModelState, Some thisViewState =>
      SingleCursorState_equals thisModelState modelState'
      && SingleCursorState_equals thisViewState viewState'
  | _, _ => false
  end.

(** [_setState(context, modelState, viewState)] *)
Definition _setState (context : CursorContext)
    (modelState viewState : option SingleCursorState)
    (this : OneCursor) (markers : Markers) : completion (OneCursor * Markers) :=
  match _setState_modelState context modelState viewState with
  | ThrowTypeError => ThrowTypeError
  | Normal modelState' =>
      let viewState' := _setState_viewState context modelState' viewState in
      if unchanged this modelState' viewState'
      then Normal (this, markers)
      else
        let '(id, markers') :=
          _setTrackedRange context (_selTrackedRange this)
            (Some (selection modelState')) AlwaysGrowsWhenTypingAtEdges markers in
        Normal (mkOneCursor (Some modelState') (Some viewState') id, markers')
  end.

(** [setState(context, modelState, viewState)] *)
Definition setState (context : CursorContext)
    (modelState viewState : option SingleCursorState)
    (this : OneCursor) (markers : Markers) : completion (OneCursor * Markers) :=
  _setState context modelState viewState this markers.

(** [ensureValidState(context)] *)
Definition ensureValidState (context : CursorContext)
    (this : OneCursor) (markers : Markers) : completion (OneCursor * Markers) :=
  _setState context (modelState this) (viewState this) this markers.

(** [new OneCursor(context)] *)
Definition constructor (context : CursorContext) (markers : Markers)
  : completion (OneCursor * Markers) :=
  _setState context
    (Some (mkSingleCursorState (newRange 1 1 1 1) 0 (mkPosition 1 1) 0))
    (Some (mkSingleCursorState (newRange 1 1 1 1) 0 (mkPosition 1 1) 0))
    (mkOneCursor None None None) markers.

(** [dispose(context)] *)
Definition dispose (context : CursorContext) (this : OneCursor) (markers : Markers)
  : OneCursor * Markers :=
  let '(id, markers') :=
    _setTrackedRange context (_selTrackedRange this) None AlwaysGrowsWhenTypingAtEdges markers in
  (mkOneCursor (modelState this) (viewState this) id, markers').

(** A call made on a cursor after its construction. *)
Inductive Call : Type :=
| CallSetState (context : CursorContext) (modelState viewState : option SingleCursorState)
| CallEnsureValidState (context : CursorContext).

Definition call_context (c : Call) : CursorContext :=
  match c with
  | CallSetState context _ _ => context
  | CallEnsureValidState context => context
  end.

Definition call (c : Call) (this : OneCursor) (markers : Markers)
  : completion (OneCursor * Markers) :=
  match c with
  | CallSetState context modelState viewState =>
      setState context modelState viewState this markers
  | CallEnsureValidState context => ensureValidState context this markers
  end.

(** A sequence of calls on a cursor. A call that throws leaves the cursor as
    it was. The context that comes with the result is that of the last call
    that returned. *)
Fixpoint calls (cs : list Call) (last : CursorContext) (this : OneCursor) (markers : Markers)
  : CursorContext * OneCursor * Markers :=
  match cs with
  | [] => (last, this, markers)
  | c :: rest =>
      match call c this markers with
      | Normal (this', markers') => calls rest (call_context c) this' markers'
      | ThrowTypeError => calls rest last this markers
      end
  end.

(** A cursor is constructed and then called. *)
Definition life (context : CursorContext) (markers : Markers) (cs : list Call)
  : completion (CursorContext * OneCursor * Markers) :=
  match constructor context markers with
  | Normal (this, markers') => Normal (calls cs context this markers')
  | ThrowTypeError => ThrowTypeError
  end.

(** The view range between the converted ends of a model range. *)
Definition convertedRange (context : CursorContext) (r : Range) : Range :=
  let start := convertModelPositionToViewPosition context
                 (mkPosition (startLineNumber r) (startColumn r)) in
  let stop := convertModelPositionToViewPosition context
                (mkPosition (endLineNumber r) (endColumn r)) in
  newRange (lineNumber start) (column start) (lineNumber stop) (column stop).

(** The view coordinates [v] holds are those of the model state [m] under
    the context: converted from [m], or a view range and a view position
    validated against [m]. *)
Definition corresponds (context : CursorContext) (m v : SingleCursorState) : Prop :=
  (selectionStart v = convertedRange context (selectionStart m)
   /\ position v = convertModelPositionToViewPosition context (position m))
  \/ (exists viewRange viewPosition,
        selectionStart v = validateViewRange context viewRange (selectionStart m)
        /\ position v = validateViewPosition context viewPosition (position m)).

(** Model state and view state are both there and agree. *)
Definition synchronized (context : CursorContext) (this : OneCursor) : Prop :=
  exists m v,
    modelState this = Some m /\
    viewState this = Some v /\
    selectionStartLeftoverVisibleColumns v = selectionStartLeftoverVisibleColumns m /\
    leftoverVisibleColumns v = leftoverVisibleColumns m /\
    corresponds context m v.

End OneCursor.

Arguments CursorContext : clear implicits.
Arguments Call : clear implicits.

End Cursor.


(** ** The quick-open controller (second part of the cursor source file) *)

Module QuickOpen.

Import Core.

(** [editorCommon.ScrollType] *)
Inductive ScrollType : Set := Smooth | Immediate.

(** The options of a decoration. *)
Record ModelDecorationOptions := mkOptions {
  className : string;
  isWholeLine : bool
}.

#[global] Instance ModelDecorationOptions_eq_dec : EqDecision ModelDecorationOptions.
Proof. solve_decision. Defined.

(** [IModelDeltaDecoration] *)
Record ModelDeltaDecoration := mkDecoration {
  range : Range;
  options : ModelDecorationOptions
}.

(** [QuickOpenController._RANGE_HIGHLIGHT_DECORATION] *)
Definition _RANGE_HIGHLIGHT_DECORATION : ModelDecorationOptions :=
  mkOptions "rangeHighlight" true.

(** Modelled from the spec: the code editor ([ICodeEditor] is declared
    outside the sources). An editor that shows a model has a selection and
    the model's decorations, each under the id the model gave it; the model
    numbers its decorations. *)
Record Editor := mkEditor {
  selection : Selection;
  decorations : gmap string ModelDeltaDecoration;
  lastDecorationId : nat
}.

(** Modelled from the spec: the id a model gives its [n]-th decoration, the
    model's own number first. *)
Definition decorationId (editor n : nat) : string :=
  pretty editor +:+ ";" +:+ pretty n.

(** Modelled from the spec: the next of the ids in [oldDecorationsIds] that
    names a decoration of the model, with the ids after it; ids that name
    none are passed over. *)
Fixpoint nextOldNode (oldDecorationsIds : list string)
    (decos : gmap string ModelDeltaDecoration) : option string * list string :=
  match oldDecorationsIds with
  | [] => (None, [])
  | id :: rest =>
      match decos !! id with
      | Some _ => (Some id, rest)
      | None => nextOldNode rest decos
      end
  end.

(** Modelled from the spec: [changeAccessor.deltaDecorations(old, new)].
    The model goes through the two lists side by side: a new decoration
    takes the place, and with it the id, of the next old decoration the
    model has, and gets a fresh id of the model when none is left; the old
    decorations that are left over once the new ones are placed are
    removed. The ids of the new decorations are returned. *)
Fixpoint deltaDecorations (editor : nat) (oldDecorations : list string)
    (newDecorations : list ModelDeltaDecoration) (ed : Editor) : list string * Editor :=
  match newDecorations with
  | [] =>
      ([], mkEditor (selection ed)
                    (foldr delete (decorations ed) oldDecorations)
                    (lastDecorationId ed))
  | d :: rest =>
      let '(node, oldDecorations') := nextOldNode oldDecorations (decorations ed) in
      let '(id, last) :=
        match node with
        | Some id => (id, lastDecorationId ed)
        | None => (decorationId editor (lastDecorationId ed), S (lastDecorationId ed))
        end in
      let '(ids, ed') :=
        deltaDecorations editor oldDecorations' rest
          (mkEditor (selection ed) (<[id := d]> (decorations ed)) last) in
      (id :: ids, ed')
  end.

(** The quick-open widget, as far as the controller is concerned. *)
Record QuickOpenEditorWidget := mkWidget {
  inputAriaLabel : string;
  visible : bool
}.

(** [IQuickOpenControllerOpts] *)
Record IQuickOpenControllerOpts := mkOpts {
  opts_inputAriaLabel : string
}.

(** The fields of a [QuickOpenController]; [editor] names the editor it
    contributes to. *)
Record QuickOpenController := mkController {
  editor : nat;
  widget : option QuickOpenEditorWidget;
  rangeHighlightDecorationId : option string;
  lastKnownEditorSelection : option Selection
}.

(** The editors that show a model, what was asked of the editors, and the
    controller. *)
Record World := mkWorld {
  editors : gmap nat Editor;
  revealed : list (nat * Selection * ScrollType);
  focused : list nat;
  this : QuickOpenController
}.

(** [if (id)] on a string or [null]: [null] and the empty string are
    falsy. *)
Definition truthy (id : option string) : bool :=
  match id with
  | Some s => negb (String.eqb s "")
  | None => false
  end.

(** Modelled from the spec: [editor.getSelection()], [null] without a
    model. *)
Definition getSelection (e : nat) (w : World) : option Selection :=
  selection <$> editors w !! e.

(** Modelled from the spec: [editor.setSelection(sel)]. *)
Definition setSelection (e : nat) (sel : Selection) (w : World) : World :=
  mkWorld (alter (fun ed => mkEditor sel (decorations ed) (lastDecorationId ed)) e (editors w))
          (revealed w) (focused w) (this w).

(** Modelled from the spec:
    [editor.revealRangeInCenterIfOutsideViewport(range, scrollType)]. *)
Definition revealRangeInCenterIfOutsideViewport (e : nat) (r : Selection)
    (scrollType : ScrollType) (w : World) : World :=
  mkWorld (editors w) (revealed w ++ [(e, r, scrollType)]) (focused w) (this w).

(** Modelled from the spec: [editor.focus()]. *)
Definition focus (e : nat) (w : World) : World :=
  mkWorld (editors w) (revealed w) (focused w ++ [e]) (this w).

(** [constructor(editor, themeService)] *)
Definition constructor (e : nat) : QuickOpenController :=
  mkController e None None None.

(** [decorateLine(range, editor)]: the callback of [changeDecorations] runs
    when the editor shows a model. *)
Definition decorateLine (r : Range) (e : nat) (w : World) : World :=
  match editors w !! e with
  | None => w
  | Some ed =>
      let oldDecorations :=
        if truthy (rangeHighlightDecorationId (this w))
        then from_option (fun id => [id]) [] (rangeHighlightDecorationId (this w))
        else [] in
      let newDecorations := [mkDecoration r _RANGE_HIGHLIGHT_DECORATION] in
      let '(decorations', ed') := deltaDecorations e oldDecorations newDecorations ed in
      mkWorld (<[e := ed']> (editors w)) (revealed w) (focused w)
        (mkController (editor (this w)) (widget (this w))
                      (decorations' !! 0%nat)
                      (lastKnownEditorSelection (this w)))
  end.

(** [clearDecorations()] *)
Definition clearDecorations (w : World) : World :=
  if truthy (rangeHighlightDecorationId (this w))
  then
    match editors w !! editor (this w) with
    | None => w
    | Some ed =>
        let '(_, ed') :=
          deltaDecorations (editor (this w))
            (from_option (fun id => [id]) [] (rangeHighlightDecorationId (this w))) [] ed in
        mkWorld (<[editor (this w) := ed']> (editors w)) (revealed w) (focused w)
          (mkController (editor (this w)) (widget (this w)) None
                        (lastKnownEditorSelection (this w)))
    end
  else w.

(** The [onClose] callback that [run] hands to the widget. *)
Definition onClose (canceled : bool) (w : World) : World :=
  let w1 := clearDecorations w in
  let w2 :=
    match lastKnownEditorSelection (this w1) with
    | Some sel =>
        if canceled
        then revealRangeInCenterIfOutsideViewport (editor (this w1)) sel Smooth
               (setSelection (editor (this w1)) sel w1)
        else w1
    | None => w1
    end in
  focus (editor (this w2))
    (mkWorld (editors w2) (revealed w2) (focused w2)
       (mkController (editor (this w2)) (widget (this w2))
                     (rangeHighlightDecorationId (this w2)) None)).

(** [run(opts)]: a widget that is there is destroyed, a new one is made, the
    selection is remembered unless one is remembered already, and the widget
    is shown. *)
Definition run (opts : IQuickOpenControllerOpts) (w : World) : World :=
  let remembered :=
    match lastKnownEditorSelection (this w) with
    | Some sel => Some sel
    | None => getSelection (editor (this w)) w
    end in
  mkWorld (editors w) (revealed w) (focused w)
    (mkController (editor (this w))
                  (Some (mkWidget (opts_inputAriaLabel opts) true))
                  (rangeHighlightDecorationId (this w))
                  remembered).

(** The widget closes: it hides and calls back. *)
Definition close (canceled : bool) (w : World) : World :=
  onClose canceled
    (mkWorld (editors w) (revealed w) (focused w)
       (mkController (editor (this w))
                     ((fun wd => mkWidget (inputAriaLabel wd) false) <$> widget (this w))
                     (rangeHighlightDecorationId (this w))
                     (lastKnownEditorSelection (this w)))).

(** [dispose()] *)
Definition dispose (w : World) : World :=
  mkWorld (editors w) (revealed w) (focused w)
    (mkController (editor (this w)) None
                  (rangeHighlightDecorationId (this w))
                  (lastKnownEditorSelection (this w))).

(** What happens to a controller and its editors. *)
Inductive Event : Type :=
| Run (opts : IQuickOpenControllerOpts)
| Close (canceled : bool)
| DecorateLine (r : Range) (e : nat)
| ClearDecorations
| SelectionMoved (e : nat) (sel : Selection)
| Dispose.

Definition step (w : World) (ev : Event) : World :=
  match ev with
  | Run opts => run opts w
  | Close canceled => close canceled w
  | DecorateLine r e => decorateLine r e w
  | ClearDecorations => clearDecorations w
  | SelectionMoved e sel => setSelection e sel w
  | Dispose => dispose w
  end.

Definition steps (evs : list Event) (w : World) : World := fold_left step evs w.

(** The decoration [id] of editor [e] is a live range highlight. *)
Definition highlight (w : World) (e : nat) (id : string) : Prop :=
  exists ed d,
    editors w !! e = Some ed /\
    decorations ed !! id = Some d /\
    options d = _RANGE_HIGHLIGHT_DECORATION.

(** [rangeHighlightDecorationId] is [null] or the id of the one live range
    highlight. *)
Definition single_highlight (w : World) : Prop :=
  (forall e id, highlight w e id ->
     e = editor (this w) /\ rangeHighlightDecorationId (this w) = Some id) /\
  (forall id, rangeHighlightDecorationId (this w) = Some id ->
     truthy (Some id) = true /\ highlight w (editor (this w)) id).

(** The ids of an editor's decorations are ids its model gave out. *)
Definition ids_given (w : World) : Prop :=
  forall e ed id,
    editors w !! e = Some ed ->
    is_Some (decorations ed !! id) ->
    exists n, (n < lastDecorationId ed)%nat /\ id = decorationId e n.

(** The event hands the controller's own editor to [decorateLine]. *)
Definition own_editor (w : World) (ev : Event) : Prop :=
  match ev with
  | DecorateLine _ e => e = editor (this w)
  | _ => True
  end.

(** The event is not the closing of the widget. *)
Definition stays_open (ev : Event) : Prop :=
  match ev with
  | Close _ => False
  | _ => True
  end.

End QuickOpen.


(** ** What [getHover] hands to the error handler *)

Module HoverReport.

Import GetHover.

(** How the promise for a provider settles, read off what its
    [provideHover] does: a returned value fulfils it, an exception rejects
    it, a returned thenable settles it as it settles itself. *)
Definition settlement {Err : Type} (a : answer Err) : JS.settled (option Hover) Err :=
  match a with
  | Returns result => JS.Resolves result
  | Throws err => JS.Fails err
  | ReturnsThenable later => later
  end.

(** The error a provider promise is rejected with, if it is. *)
Definition failure {Err : Type} (p : JS.settled (option Hover) Err) : option Err :=
  match p with
  | JS.Fails err => Some err
  | JS.Resolves _ => None
  end.

(** The errors of the rejected provider promises, in registry order. *)
Definition rejections {Err : Type} (ps : list (JS.settled (option Hover) Err)) : list Err :=
  omap failure ps.

(** The errors reported once the promises listed in [seen] have settled:
    one for each rejected promise among them. *)
Definition reported_so_far {Err : Type} (ps : list (JS.settled (option Hover) Err))
    (seen : list nat) (c : Collect Err) : Prop :=
  reported c ≡ₚ omap (fun i => ps !! i ≫= failure) (remove_dups seen).

End HoverReport.

(** ** Edit operations of a command: vs/editor/test/browser/testCommand.ts *)

Module TestCommand.

Import Core.

(** [IIdentifiedSingleEditOperation]; [identifier] is [null] or an
    identifier. *)
Record IIdentifiedSingleEditOperation := mkOperation {
  identifier : option (nat * nat);
  range : Range;
  text : string;
  forceMoveMarkers : bool
}.

(** What a command does with the builder it is given, call by call; what it
    does after [trackSelection] may depend on the id that call returned
    ([None] is [null]). *)
Inductive Calls : Type :=
| Done
| CallAddEditOperation (range : Range) (text : string) (next : Calls)
| CallAddTrackedEditOperation (range : Range) (text : string) (next : Calls)
| CallTrackSelection (selection : Selection) (next : option string -> Calls).

(** [editorCommon.ICommand], as far as [getEditOperation] uses it. *)
Record ICommand (Model : Type) := mkCommand {
  getEditOperations : Model -> Calls
}.
Arguments mkCommand {Model} getEditOperations.
Arguments getEditOperations {Model} i m.

(** [editorCommon.IEditOperationBuilder] over a state the methods
    update. *)
Record IEditOperationBuilder (S : Type) := mkBuilder {
  addEditOperation : Range -> string -> S -> S;
  addTrackedEditOperation : Range -> string -> S -> S;
  trackSelection : Selection -> S -> option string * S
}.
Arguments mkBuilder {S} addEditOperation addTrackedEditOperation trackSelection.
Arguments addEditOperation {S} i r t s.
Arguments addTrackedEditOperation {S} i r t s.
Arguments trackSelection {S} i sel s.

(** The command runs against a builder. *)
Fixpoint perform {S : Type} (builder : IEditOperationBuilder S) (calls : Calls) (s : S) : S :=
  match calls with
  | Done => s
  | CallAddEditOperation r t next =>
      perform builder next (addEditOperation builder r t s)
  | CallAddTrackedEditOperation r t next =>
      perform builder next (addTrackedEditOperation builder r t s)
  | CallTrackSelection sel next =>
      let '(id, s') := trackSelection builder sel s in
      perform builder (next id) s'
  end.

(** The [editOperationBuilder] of [getEditOperation]: both ways of adding
    push an operation onto [operations], and [trackSelection] returns
    [null]. *)
Definition editOperationBuilder : IEditOperationBuilder (list IIdentifiedSingleEditOperation) :=
  mkBuilder
    (fun range text operations => operations ++ [mkOperation None range text false])
    (fun range text operations => operations ++ [mkOperation None range text false])
    (fun selection operations => (None, operations)).

(** [getEditOperation(model, command)] *)
Definition getEditOperation {Model : Type} (model : Model) (command : ICommand Model)
  : list IIdentifiedSingleEditOperation :=
  perform editOperationBuilder (getEditOperations command model) [].

(** The same calls with every tracked edit made as a plain edit. *)
Fixpoint untracked (calls : Calls) : Calls :=
  match calls with
  | Done => Done
  | CallAddEditOperation r t next => CallAddEditOperation r t (untracked next)
  | CallAddTrackedEditOperation r t next => CallAddEditOperation r t (untracked next)
  | CallTrackSelection sel next => CallTrackSelection sel (fun id => untracked (next id))
  end.

(** The same calls by a command that goes on after every [trackSelection]
    as it does after one that returned [null]. *)
Fixpoint untold (calls : Calls) : Calls :=
  match calls with
  | Done => Done
  | CallAddEditOperation r t next => CallAddEditOperation r t (untold next)
  | CallAddTrackedEditOperation r t next => CallAddTrackedEditOperation r t (untold next)
  | CallTrackSelection sel next => CallTrackSelection sel (fun _ => untold (next None))
  end.

(** The number of edits the command asks for when every [trackSelection]
    returns [null]. *)
Fixpoint edits (calls : Calls) : nat :=
  match calls with
  | Done => 0
  | CallAddEditOperation _ _ next => S (edits next)
  | CallAddTrackedEditOperation _ _ next => S (edits next)
  | CallTrackSelection _ next => edits (next None)
  end.

End TestCommand.

(** ** What a quick-open controller leaves behind *)

Module QuickOpenTraces.

Import Core QuickOpen.

(** Compared with the world [w0], the editors of [w] have the decorations
    they had, but for the range highlight on record in the controller's
    editor. *)
Definition only_own_highlight (w0 w : World) : Prop :=
  (forall e, e <> editor (this w0) ->
     decorations <$> editors w !! e = decorations <$> editors w0 !! e) /\
  match rangeHighlightDecorationId (this w) with
  | None =>
      decorations <$> editors w !! editor (this w0)
      = decorations <$> editors w0 !! editor (this w0)
  | Some id =>
      exists ed0 ed d,
        editors w0 !! editor (this w0) = Some ed0 /\
        editors w !! editor (this w0) = Some ed /\
        decorations ed0 !! id = None /\
        decorations ed = <[id := d]> (decorations ed0)
  end.

(** The decorations [decorateLine] and [clearDecorations] hand to
    [deltaDecorations] for removal: the one on record, if an [if] sees
    it. *)
Definition listed (w : World) : list string :=
  if truthy (rangeHighlightDecorationId (this w))
  then from_option (fun id => [id]) [] (rangeHighlightDecorationId (this w))
  else [].


(** The number of times the widget closes. *)
Definition closes (evs : list Event) : nat :=
  List.length (List.filter (fun ev => match ev with Close _ => true | _ => false end) evs).

(** The event is neither a move of a selection by someone else nor a
    canceled close. *)
Definition leaves_selections (ev : Event) : Prop :=
  match ev with
  | SelectionMoved _ _ => False
  | Close true => False
  | _ => True
  end.

(** The event is not a canceled close. *)
Definition not_canceled (ev : Event) : Prop :=
  match ev with
  | Close true => False
  | _ => True
  end.

End QuickOpenTraces.


(** ** A small provider registry to run [getHover] on *)

Module HoverDemo.

Import GetHover.

Definition position : Core.Position := Core.mkPosition 3 7.

Definition hoverDoc : Hover :=
  mkHover (JS.Value ["function f(): void"%string]) (JS.Value (Core.mkRange 3 5 3 6)).

Definition hoverType : Hover :=
  mkHover (JS.Value ["number"%string; "a count"%string]) JS.Null.

Definition hoverEmpty : Hover :=
  mkHover (JS.Value []) (JS.Value (Core.mkRange 3 5 3 6)).

Definition hoverNoRange : Hover :=
  mkHover (JS.Value ["orphan"%string]) JS.Undefined.

Definition returning (result : option Hover) : HoverProvider unit string :=
  mkProvider (fun _ _ _ => Returns result).

Definition throwing (err : string) : HoverProvider unit string :=
  mkProvider (fun _ _ _ => Throws err).

Definition deferring (later : JS.settled (option Hover) string) : HoverProvider unit string :=
  mkProvider (fun _ _ _ => ReturnsThenable later).

(** Five providers: two useful answers, one exception, one rejected
    thenable and one hover without contents. *)
Definition registry : Registry unit string :=
  mkRegistry (fun _ => [ returning (Some hoverDoc);
                         throwing "provider crashed";
                         deferring (JS.Resolves (Some hoverType));
                         deferring (JS.Fails "timeout"%string);
                         returning (Some hoverEmpty) ]).

(** A registry whose only provider answers with a hover without contents. *)
Definition registryEmptyHover : Registry unit string :=
  mkRegistry (fun _ => [ returning (Some hoverEmpty) ]).

End HoverDemo.


(** ** A small document to run a cursor on *)

Module CursorDemo.

Import Core Cursor.

(** Ten lines of twenty characters: columns run from 1 to 21. *)
Definition clampLine (l : Z) : Z := Z.max 1 (Z.min 10 l).
Definition clampColumn (c : Z) : Z := Z.max 1 (Z.min 21 c).

Definition validatePosition (p : Position) : Position :=
  mkPosition (clampLine (lineNumber p)) (clampColumn (column p)).

Definition validateRange (r : Range) : Range :=
  mkRange (clampLine (startLineNumber r)) (clampColumn (startColumn r))
          (clampLine (endLineNumber r)) (clampColumn (endColumn r)).

(** The first two model lines are hidden: view line [n] shows model line
    [n + 2]. *)
Definition toView (p : Position) : Position :=
  mkPosition (Z.max 1 (lineNumber p - 2)) (column p).

Definition toModel (l c : Z) : Position := mkPosition (l + 2) c.

(** Tracked ranges: the next free id and the ranges by id. *)
Definition Markers : Type := (nat * gmap string Selection)%type.

Definition markerId (n : nat) : string := "marker" +:+ pretty n.

Definition _setTrackedRange (id : option string) (newRange : option Selection)
    (stickiness : TrackedRangeStickiness) (m : Markers) : option string * Markers :=
  match id, newRange with
  | Some i, Some r => (Some i, (m.1, <[i := r]> m.2))
  | Some i, None => (None, (m.1, delete i m.2))
  | None, Some r => (Some (markerId m.1), (S m.1, <[markerId m.1 := r]> m.2))
  | None, None => (None, m)
  end.

Definition context : CursorContext Markers :=
  mkCursorContext
    validateRange validatePosition _setTrackedRange
    (fun r => mkRange (startLineNumber r + 2) (startColumn r)
                      (endLineNumber r + 2) (endColumn r))
    toModel toView
    (fun viewRange modelRange =>
       mkRange (Z.max 1 (startLineNumber viewRange)) (startColumn modelRange)
               (Z.max 1 (endLineNumber viewRange)) (endColumn modelRange))
    (fun viewPosition modelPosition =>
       mkPosition (Z.max 1 (lineNumber viewPosition)) (column modelPosition)).

Definition computeSelection (r : Range) (p : Position) : Selection :=
  mkSelection (startLineNumber r) (startColumn r) (lineNumber p) (column p).

Definition noMarkers : Markers := (0%nat, ∅).

(** A model state beyond the end of the document, with leftovers. *)
Definition farAway : SingleCursorState :=
  mkSingleCursorState (mkRange 4 3 4 3) 5 (mkPosition 40 3) 7.

End CursorDemo.


(** ** Two editors to run a quick-open controller on *)

Module QuickOpenDemo.

Import Core QuickOpen.

Definition atLine (n : Z) : Selection := mkSelection n 1 n 1.

Definition lineRange (n : Z) : Range := mkRange n 1 n 1.

(** Editor 0 has the cursor on line 12, editor 1 on line 3; neither has a
    decoration. The controller belongs to editor 0. *)
Definition world : World :=
  mkWorld {[ 0%nat := mkEditor (atLine 12) ∅ 0; 1%nat := mkEditor (atLine 3) ∅ 0 ]}
          [] [] (constructor 0).

Definition opts : IQuickOpenControllerOpts := mkOpts "Go to line".

(** Quick open is run, two lines are previewed in turn, and the user moves
    on in the editor. *)
Definition preview : list Event :=
  [ DecorateLine (lineRange 40) 0; SelectionMoved 0 (atLine 40);
    DecorateLine (lineRange 41) 0; SelectionMoved 0 (atLine 41) ].

(** A line is highlighted in the controller's editor, then in the other
    one. *)
Definition acrossEditors : list Event :=
  [ DecorateLine (lineRange 40) 0; DecorateLine (lineRange 7) 1 ].

End QuickOpenDemo.


(** ** Cursors of the demo document *)

Module CursorStates.

Import Core Cursor.

(** A cursor that was never set. *)
Definition blank : OneCursor := mkOneCursor None None None.

(** The cursor the constructor leaves on the demo document, and the tracked
    ranges with it. *)
Definition fresh : OneCursor :=
  mkOneCursor
    (Some (mkSingleCursorState (mkRange 1 1 1 1) 0 (mkPosition 1 1) 0))
    (Some (mkSingleCursorState (mkRange 1 1 1 1) 0 (mkPosition 1 1) 0))
    (Some "marker0"%string).

Definition freshMarkers : CursorDemo.Markers :=
  (1%nat, {[ "marker0"%string := mkSelection 1 1 1 1 ]}).

(** The cursor after [setState(context, farAway, null)]. *)
Definition pulledBack : OneCursor :=
  mkOneCursor
    (Some (mkSingleCursorState (mkRange 4 3 4 3) 5 (mkPosition 10 3) 0))
    (Some (mkSingleCursorState (mkRange 2 3 2 3) 5 (mkPosition 8 3) 0))
    (Some "marker0"%string).

Definition pulledBackMarkers : CursorDemo.Markers :=
  (1%nat, {[ "marker0"%string := mkSelection 4 3 10 3 ]}).

(** A cursor whose states lie outside the document and the view. *)
Definition astray : OneCursor :=
  mkOneCursor
    (Some (mkSingleCursorState (mkRange 4 3 4 30) 5 (mkPosition 40 3) 7))
    (Some (mkSingleCursorState (mkRange 0 3 2 3) 5 (mkPosition 0 3) 0))
    None.

(** The same cursor after [ensureValidState]. *)
Definition broughtBack : OneCursor :=
  mkOneCursor
    (Some (mkSingleCursorState (mkRange 4 3 4 21) 0 (mkPosition 10 3) 0))
    (Some (mkSingleCursorState (mkRange 1 3 2 21) 0 (mkPosition 1 3) 0))
    (Some "marker0"%string).

End CursorStates.

(** ** More quick-open worlds and a command *)

Module MoreDemo.

Import Core QuickOpen.

(** The controller's editor 5 shows no model; editor 1 does. *)
Definition detached : World :=
  mkWorld {[ 1%nat := mkEditor (QuickOpenDemo.atLine 3) ∅ 0 ]} [] [] (constructor 5).

(** A line is previewed and the widget closes by a choice. *)
Definition chosen : list Event :=
  [ Run QuickOpenDemo.opts; DecorateLine (QuickOpenDemo.lineRange 40) 0; Close false ].

(** A command that replaces one range, tracks a selection, and deletes a
    second range only if tracking gave it an id. *)
Definition replaceAndMaybeDelete : TestCommand.ICommand unit :=
  TestCommand.mkCommand
    (fun _ =>
       TestCommand.CallAddTrackedEditOperation (mkRange 1 1 1 4) "let"
         (TestCommand.CallTrackSelection (mkSelection 1 1 1 4)
            (fun id =>
               match id with
               | Some _ => TestCommand.CallAddEditOperation (mkRange 2 1 2 9) "" TestCommand.Done
               | None => TestCommand.CallAddEditOperation (mkRange 3 1 3 1) "// kept" TestCommand.Done
               end))).

End MoreDemo.


(** ** Facts about [getHover] *)

Section GetHoverFacts.

Import GetHover.

Context {Model Err : Type}.

Implicit Types (ps : list (JS.settled (option Hover) Err)) (c : Collect Err).

(** The fan-out invokes the providers in registry order and pairs each with
    its promise. *)
Lemma fan_out_spec (model : Model) (position : Core.Position)
    (supports : list (HoverProvider Model Err)) (log : list (Call Model Err)) :
  fan_out model position supports log =
    (log ++ map (fun support => (support, model, position)) supports,
     map (fun support => asWinJsPromise (provideHover support model position)) supports).
Proof.
  revert log. induction supports as [|support rest IH]; intros log; simpl.
  - by rewrite app_nil_r.
  - rewrite IH. by rewrite <- app_assoc.
Qed.

Lemma settled_so_far_init ps : settled_so_far ps [] (mkCollect JS.empty [] ∅).
Proof.
  repeat split; simpl; intros; rewrite ?lookup_empty; try done.
  - by destruct H.
  - lia.
Qed.

Lemma settle_again idx p c :
  is_Some (chained c !! idx) -> settle idx p c = c.
Proof. intros [u Hu]. unfold settle. by rewrite Hu. Qed.

Lemma settle_values idx p c :
  chained c !! idx = None ->
  values (settle idx p c) =
    match kept p with
    | Some h => JS.set_index idx h (values c)
    | None => values c
    end.
Proof.
  intros Hc. unfold settle, kept. rewrite Hc.
  destruct p as [[h|]|err]; simpl; try done.
  by destruct (hasRange h && hasHtmlContent h).
Qed.

Lemma settle_chained idx p c :
  chained c !! idx = None ->
  chained (settle idx p c) = <[idx := JS.Resolves tt]> (chained c).
Proof.
  intros Hc. unfold settle. rewrite Hc.
  destruct p as [[h|]|err]; simpl; try done.
  by destruct (hasRange h && hasHtmlContent h).
Qed.

(** Reading a slot through the guard [i ∈ idx :: seen]. *)
Lemma seen_cons_lookup {B} (seen : list nat) (idx i : nat) (x y : option B) :
  (i = idx -> x = y) ->
  (i <> idx -> x = if decide (i ∈ seen) then y else None) ->
  x = if decide (i ∈ idx :: seen) then y else None.
Proof.
  intros Heq Hne. destruct (decide (i = idx)) as [->|Hi].
  - rewrite decide_True by apply list_elem_of_here. by apply Heq.
  - rewrite (Hne Hi). destruct (decide (i ∈ seen)) as [Hin|Hnin].
    + rewrite decide_True; [done|]. by apply list_elem_of_further.
    + rewrite decide_False; [done|]. intros [?|?]%elem_of_cons; done.
Qed.

Lemma settled_so_far_step ps seen c idx :
  settled_so_far ps seen c ->
  settled_so_far ps (idx :: seen)
    (match ps !! idx with Some p => settle idx p c | None => c end).
Proof.
  intros (Hch & Hval & Hwf & Hlen).
  destruct (ps !! idx) as [p|] eqn:Hp.
  - destruct (chained c !! idx) as [u|] eqn:Hc.
    + (* the promise at [idx] had settled before *)
      rewrite settle_again by eauto.
      assert (idx ∈ seen) as Hin.
      { specialize (Hch idx). rewrite Hc in Hch. by destruct (decide (idx ∈ seen)). }
      split_and!; try done; intros i; apply seen_cons_lookup; intros Hi; subst.
      * rewrite Hch. by rewrite decide_True.
      * apply Hch.
      * rewrite Hval. by rewrite decide_True.
      * apply Hval.
    + assert (idx ∉ seen) as Hnin.
      { intros Hin. specialize (Hch idx). rewrite Hc, Hp in Hch.
        by rewrite decide_True in Hch. }
      assert (idx < List.length ps)%nat as Hidx by (eapply lookup_lt_Some; eauto).
      assert (JS.elems (values c) !! idx = None) as Hfree.
      { rewrite Hval. by rewrite decide_False. }
      split_and!.
      * intros i. rewrite settle_chained by done. apply seen_cons_lookup; intros Hi; subst.
        -- by rewrite lookup_insert_eq, Hp.
        -- rewrite lookup_insert_ne by done. apply Hch.
      * intros i. rewrite settle_values by done. apply seen_cons_lookup; intros Hi; subst.
        -- rewrite Hp. simpl. destruct (kept p) as [h|]; simpl; [|done].
           by rewrite lookup_insert_eq.
        -- destruct (kept p) as [h|]; simpl; [|by apply Hval].
           rewrite lookup_insert_ne by done. apply Hval.
      * intros i. rewrite settle_values by done.
        destruct (kept p) as [h|]; simpl; [|by apply Hwf].
        destruct (decide (i = idx)) as [->|Hne]; [lia|].
        rewrite lookup_insert_ne by done. intros Hs%Hwf. lia.
      * rewrite settle_values by done. destruct (kept p) as [h|]; simpl; lia.
  - (* no promise at [idx]: nothing happens *)
    split_and!; try done; intros i; apply seen_cons_lookup; intros Hi; subst.
    + rewrite Hp. simpl. rewrite Hch. by destruct (decide (idx ∈ seen)); rewrite ?Hp.
    + apply Hch.
    + rewrite Hp. simpl. rewrite Hval. by destruct (decide (idx ∈ seen)); rewrite ?Hp.
    + apply Hval.
Qed.

Lemma settled_so_far_all ps schedule : forall seen c,
  settled_so_far ps seen c ->
  settled_so_far ps (rev schedule ++ seen) (settle_all ps schedule c).
Proof.
  unfold settle_all.
  induction schedule as [|idx rest IH]; intros seen c H; simpl; [done|].
  rewrite <- app_assoc. simpl. apply IH. by apply settled_so_far_step.
Qed.

(** Reading [coalesce] off the slots. *)
Lemma omap_seq_lookup {A B} (f : A -> option B) (l : list A) :
  omap (fun i => l !! i ≫= f) (seq 0 (List.length l)) = omap f l.
Proof.
  induction l as [|x l IH]; [done|].
  simpl List.length. rewrite <- cons_seq. rewrite <- fmap_S_seq.
  change (omap (fun i => (x :: l) !! i ≫= f) (0%nat :: (S <$> seq 0 (List.length l))))
    with (match f x with
          | Some y => y :: omap (fun i => (x :: l) !! i ≫= f) (S <$> seq 0 (List.length l))
          | None => omap (fun i => (x :: l) !! i ≫= f) (S <$> seq 0 (List.length l))
          end).
  change (omap f (x :: l))
    with (match f x with Some y => y :: omap f l | None => omap f l end).
  rewrite <- IH.
  assert (omap (fun i => (x :: l) !! i ≫= f) (S <$> seq 0 (List.length l))
          = omap (fun i => l !! i ≫= f) (seq 0 (List.length l))) as ->; [|done].
  apply list_omap_ext. apply Forall2_fmap_l, Forall_Forall2_diag, Forall_forall.
  done.
Qed.

Lemma omap_seq_beyond {B} (g : nat -> option B) (len n : nat) :
  (len <= n)%nat ->
  (forall i, (len <= i)%nat -> g i = None) ->
  omap g (seq 0 n) = omap g (seq 0 len).
Proof.
  intros Hle Hnone. replace n with (len + (n - len))%nat by lia.
  rewrite seq_app, omap_app. simpl.
  assert (omap g (seq len (n - len)) = []) as ->; [|by rewrite app_nil_r].
  generalize (n - len)%nat as k. intros k.
  assert (forall j, (len <= j)%nat -> omap g (seq j k) = []) as Hk; [|by apply Hk].
  induction k as [|k IH]; intros j Hj; [done|].
  simpl. rewrite Hnone by done. apply IH. lia.
Qed.

Lemma coalesce_settled ps seen c :
  settled_so_far ps seen c ->
  complete (List.length ps) seen ->
  coalesce (values c) = omap kept ps.
Proof.
  intros (_ & Hval & Hwf & Hlen) Hall. unfold coalesce.
  rewrite <- (omap_seq_lookup kept ps).
  rewrite (omap_seq_beyond (fun i => ps !! i ≫= kept) (JS.length (values c)) (List.length ps)).
  - apply list_omap_ext, Forall_Forall2_diag, Forall_forall. intros i Hi.
    rewrite Hval. apply elem_of_seq in Hi.
    rewrite decide_True; [done|]. apply Hall. lia.
  - done.
  - intros i Hi. destruct (decide (i < List.length ps)%nat) as [Hlt|Hge].
    + specialize (Hval i). rewrite decide_True in Hval by (by apply Hall).
      rewrite <- Hval. destruct (JS.elems (values c) !! i) eqn:E; [|done].
      assert (i < JS.length (values c))%nat by (apply Hwf; eauto). lia.
    + rewrite lookup_ge_None_2; [done|lia].
Qed.

Lemma join_settled ps seen c :
  settled_so_far ps seen c ->
  complete (List.length ps) seen ->
  join (List.length ps) (chained c) = JS.Fulfilled tt.
Proof.
  intros (Hch & _) Hall. unfold join.
  assert (forall i, i ∈ seq 0 (List.length ps) -> chained c !! i = Some (JS.Resolves tt)) as Hdone.
  { intros i Hi%elem_of_seq. rewrite Hch. rewrite decide_True by (apply Hall; lia).
    destruct (lookup_lt_is_Some_2 ps i) as [p Hp]; [lia|]. by rewrite Hp. }
  revert Hdone. generalize (seq 0 (List.length ps)) as idxs.
  intros idxs Hdone.
  assert (forallb (fun i => bool_decide (is_Some (chained c !! i))) idxs = true) as ->.
  { apply forallb_forall. intros i Hi%list_elem_of_In.
    apply bool_decide_eq_true. rewrite Hdone by done. eauto. }
  assert (omap (fun i => match chained c !! i with
                         | Some (JS.Fails e) => Some e
                         | _ => None
                         end) idxs = []) as ->; [|done].
  induction idxs as [|i idxs IH]; [done|].
  simpl. rewrite (Hdone i) by apply list_elem_of_here.
  apply IH. intros j Hj. apply Hdone. by apply list_elem_of_further.
Qed.

(** Under a complete schedule [getHover] is fulfilled with the hovers its
    providers' promises leave in [values], in registry order. *)
Lemma getHover_complete (registry : Registry Model Err) (model : Model)
    (position : Core.Position) (schedule : list nat) :
  complete (List.length (ordered registry model)) schedule ->
  returned (getHover registry model position schedule)
  = JS.Fulfilled (omap kept (promises_of registry model position)).
Proof.
  intros Hall. unfold getHover. rewrite fan_out_spec. simpl.
  fold (promises_of registry model position).
  set (ps := promises_of registry model position).
  assert (List.length ps = List.length (ordered registry model)) as Hn
    by (unfold ps, promises_of; apply length_map).
  pose proof (settled_so_far_all ps schedule [] _ (settled_so_far_init ps)) as Hinv.
  rewrite app_nil_r in Hinv.
  assert (complete (List.length ps) (rev schedule)) as Hall'.
  { intros i Hi. apply list_elem_of_In, in_rev. rewrite rev_involutive. apply list_elem_of_In, Hall. lia. }
  rewrite (join_settled ps _ _ Hinv Hall').
  by rewrite (coalesce_settled ps _ _ Hinv Hall').
Qed.

Lemma kept_rejects (model : Model) (position : Core.Position)
    (support : HoverProvider Model Err) :
  rejects model position support = true ->
  kept (asWinJsPromise (provideHover support model position)) = None.
Proof.
  unfold rejects.
  by destruct (asWinJsPromise (provideHover support model position)).
Qed.

Lemma kept_without_rejecting (registry : Registry Model Err) (model : Model)
    (position : Core.Position) :
  omap kept (promises_of (without_rejecting registry model position) model position)
  = omap kept (promises_of registry model position).
Proof.
  unfold promises_of, without_rejecting. simpl.
  induction (ordered registry model) as [|support rest IH]; [done|].
  rewrite filter_cons. destruct (rejects model position support) eqn:Hrej.
  - rewrite decide_False by done. rewrite IH. csimpl.
    by rewrite kept_rejects.
  - rewrite decide_True by done. csimpl. by rewrite IH.
Qed.

Lemma kept_filter_produced ps :
  omap kept ps = List.filter (fun h => hasRange h && hasHtmlContent h) (produced ps).
Proof.
  unfold produced.
  induction ps as [|p ps IH]; [done|].
  destruct p as [[h|]|err]; csimpl; try done.
  rewrite IH. by destruct (hasRange h && hasHtmlContent h).
Qed.

Lemma filter_sublist {A} (f : A -> bool) (l : list A) :
  List.filter f l `sublist_of` l.
Proof.
  induction l as [|x l IH]; simpl; [constructor|].
  destruct (f x); by constructor.
Qed.

(** The test of the success callback says what its description says. *)
Lemma accepted_acceptable (h : Hover) :
  hasRange h && hasHtmlContent h = true <-> acceptable h.
Proof.
  unfold hasRange, hasHtmlContent, acceptable, JS.not_undefined.
  destruct h as [c r]; simpl. split.
  - intros H. destruct r, c as [| |l]; simpl in H; try done.
    + destruct l; [done|]. split_and!; try done. eexists; split; done.
    + destruct l; [done|]. split_and!; try done. eexists; split; done.
  - intros (Hr & Hc & l & -> & Hl). destruct l; [done|]. by destruct r.
Qed.

Lemma elem_of_kept ps (h : Hover) :
  h ∈ omap kept ps <->
  (exists idx, ps !! idx = Some (JS.Resolves (Some h))) /\ acceptable h.
Proof.
  rewrite list_elem_of_omap. split.
  - intros (p & Hp & Hk). unfold kept in Hk.
    destruct p as [[h'|]|err]; try done.
    destruct (hasRange h' && hasHtmlContent h') eqn:Hok; [|done].
    injection Hk as ->. split; [|by apply accepted_acceptable].
    by apply list_elem_of_lookup in Hp.
  - intros ((idx & Hidx) & Hok). exists (JS.Resolves (Some h)). split.
    + apply list_elem_of_lookup. eauto.
    + simpl. apply accepted_acceptable in Hok. by rewrite Hok.
Qed.

(** Whatever has settled so far, no promise that [then] returned has
    failed. *)
Lemma join_never_rejected ps seen c (errs : list Err) :
  settled_so_far ps seen c ->
  join (List.length ps) (chained c) <> JS.Rejected errs.
Proof.
  intros (Hch & _). unfold join.
  destruct (forallb _ _); [|done].
  assert (omap (fun i => match chained c !! i with
                         | Some (JS.Fails e) => Some e
                         | _ => None
                         end) (seq 0 (List.length ps)) = []) as ->; [|done].
  induction (seq 0 (List.length ps)) as [|i idxs IH]; [done|].
  csimpl. rewrite Hch.
  destruct (decide (i ∈ seen)); [|done]. by destruct (ps !! i).
Qed.

Lemma getHover_never_rejected (registry : Registry Model Err) (model : Model)
    (position : Core.Position) (schedule : list nat) (errs : list Err) :
  returned (getHover registry model position schedule) <> JS.Rejected errs.
Proof.
  unfold getHover. rewrite fan_out_spec. simpl.
  set (ps := map _ (ordered registry model)).
  pose proof (settled_so_far_all ps schedule [] _ (settled_so_far_init ps)) as Hinv.
  pose proof (join_never_rejected ps _ _ errs Hinv) as Hjoin.
  destruct (join (List.length ps) _); try done.
  intros [= ->]. done.
Qed.

(** C1. When a provider's [provideHover] throws or its promise is rejected,
    the promise of [getHover] is not rejected, at any time and whatever the
    order in which the providers settle, and it is fulfilled once they all
    have settled; the hovers it is fulfilled with are those [getHover]
    yields for the registry without the failing providers, so a failing
    provider adds nothing and the others' results stay as they are. *)
Theorem getHover_provider_errors_suppressed (registry : Registry Model Err)
    (model : Model) (position : Core.Position) (schedule : list nat) :
  (forall errs,
     returned (getHover registry model position schedule) <> JS.Rejected errs) /\
  (complete (List.length (ordered registry model)) schedule ->
   exists hovers,
     returned (getHover registry model position schedule) = JS.Fulfilled hovers /\
     forall schedule',
       complete (List.length (ordered (without_rejecting registry model position) model))
                schedule' ->
       returned (getHover (without_rejecting registry model position) model position schedule')
       = JS.Fulfilled hovers).
Proof.
  split; [intros errs; apply getHover_never_rejected|].
  intros Hall. eexists. split; [by apply getHover_complete|].
  intros schedule' Hall'. rewrite getHover_complete by done.
  by rewrite kept_without_rejecting.
Qed.

(** C2. [getHover] invokes [provideHover] once on each provider of
    [HoverProviderRegistry.ordered(model)], in that order, each time with the
    model and the position it was given and a token that is not cancelled:
    the log of invocations lists the providers once each, the promises that
    are chained are those of these very invocations, provider by provider,
    and what [getHover] resolves with is read off them. None of this depends
    on how the promises settle. *)
Theorem getHover_invokes_each_provider_once (registry : Registry Model Err)
    (model : Model) (position : Core.Position) (schedule : list nat) :
  invoked (getHover registry model position schedule)
  = map (fun support => (support, model, position)) (ordered registry model) /\
  (fan_out model position (ordered registry model) []).2
  = map (fun support =>
           HoverReport.settlement (provideHover support model position (mkToken false)))
        (ordered registry model) /\
  (complete (List.length (ordered registry model)) schedule ->
   returned (getHover registry model position schedule)
   = JS.Fulfilled
       (omap (fun support =>
                kept (HoverReport.settlement
                        (provideHover support model position (mkToken false))))
             (ordered registry model))).
Proof.
  split_and!.
  - unfold getHover. by rewrite fan_out_spec.
  - by rewrite fan_out_spec.
  - intros Hall. rewrite getHover_complete by done. unfold promises_of. f_equal.
    clear Hall. induction (ordered registry model) as [|support rest IH]; [done|].
    csimpl. rewrite IH. reflexivity.
Qed.

(** C3, amended. [getHover] resolves with the hover objects its providers
    produced that pass the test of the success callback, in registry order:
    the array is an order-preserving selection of what the providers
    returned, each hover as its provider returned it. *)
Theorem getHover_collects_in_registry_order (registry : Registry Model Err)
    (model : Model) (position : Core.Position) (schedule : list nat) :
  complete (List.length (ordered registry model)) schedule ->
  exists hovers,
    returned (getHover registry model position schedule) = JS.Fulfilled hovers /\
    hovers = List.filter (fun h => hasRange h && hasHtmlContent h)
                         (produced (promises_of registry model position)) /\
    hovers `sublist_of` produced (promises_of registry model position).
Proof.
  intros Hall. eexists. split; [by apply getHover_complete|].
  rewrite kept_filter_produced. split; [done|apply filter_sublist].
Qed.

(** C4. A hover that a provider returned is in the array [getHover] resolves
    with exactly when its range is defined and its contents are defined and
    not empty; [null] and [undefined] results, hovers that fail the test and
    failed providers leave nothing, and what remains keeps the providers'
    order. *)
Theorem getHover_keeps_exactly_acceptable (registry : Registry Model Err)
    (model : Model) (position : Core.Position) (schedule : list nat) :
  complete (List.length (ordered registry model)) schedule ->
  exists hovers,
    returned (getHover registry model position schedule) = JS.Fulfilled hovers /\
    (forall h, h ∈ hovers <->
       (exists idx, promises_of registry model position !! idx = Some (JS.Resolves (Some h)))
       /\ acceptable h) /\
    hovers `sublist_of` produced (promises_of registry model position).
Proof.
  intros Hall. eexists. split; [by apply getHover_complete|]. split.
  - intros h. apply elem_of_kept.
  - rewrite kept_filter_produced. apply filter_sublist.
Qed.

(** C8. The array [getHover] resolves with is a function of the outcomes of
    its providers: two runs whose providers end the same way are both
    fulfilled, and with the same array, in whatever order the promises of
    either run settle. *)
Theorem getHover_schedule_independent (registry registry' : Registry Model Err)
    (model : Model) (position : Core.Position) (schedule schedule' : list nat) :
  promises_of registry model position = promises_of registry' model position ->
  complete (List.length (ordered registry model)) schedule ->
  complete (List.length (ordered registry' model)) schedule' ->
  exists hovers,
    returned (getHover registry model position schedule) = JS.Fulfilled hovers /\
    returned (getHover registry' model position schedule') = JS.Fulfilled hovers.
Proof.
  intros Hsame Hall Hall'. eexists. rewrite !getHover_complete by done.
  by rewrite Hsame.
Qed.

End GetHoverFacts.

(** Completeness of a schedule can be checked by running through the
    indices. *)
Lemma complete_by_check (n : nat) (schedule : list nat) :
  forallb (fun i => bool_decide (i ∈ schedule)) (seq 0 n) = true ->
  GetHover.complete n schedule.
Proof.
  intros Hall i Hi. rewrite forallb_forall in Hall.
  eapply bool_decide_eq_true, Hall. apply in_seq. lia.
Qed.

Lemma complete_demo_5 : GetHover.complete 5 [3; 1; 4; 0; 2]%nat.
Proof. by apply complete_by_check. Qed.

(** The run of the demo registry: two hovers survive, two errors are
    reported in the order in which the promises settled. *)
Example getHover_demo_run :
  GetHover.getHover HoverDemo.registry tt HoverDemo.position [3; 1; 4; 0; 2]%nat
  = GetHover.mkOutcome
      (map (fun support => (support, tt, HoverDemo.position))
           (GetHover.ordered HoverDemo.registry tt))
      ["timeout"%string; "provider crashed"%string]
      (JS.Fulfilled [HoverDemo.hoverDoc; HoverDemo.hoverType]).
Proof. vm_compute. reflexivity. Qed.

(** While a provider promise is outstanding [getHover] stays pending. *)
Example getHover_demo_pending :
  GetHover.returned
    (GetHover.getHover HoverDemo.registry tt HoverDemo.position [3; 1; 0; 2]%nat)
  = JS.Pending.
Proof. vm_compute. reflexivity. Qed.

Lemma getHover_provider_errors_suppressed_witness :
  exists hovers,
    GetHover.returned
      (GetHover.getHover HoverDemo.registry tt HoverDemo.position [3; 1; 4; 0; 2]%nat)
    = JS.Fulfilled hovers /\
    forall schedule',
      GetHover.complete
        (List.length (GetHover.ordered
           (GetHover.without_rejecting HoverDemo.registry tt HoverDemo.position) tt))
        schedule' ->
      GetHover.returned
        (GetHover.getHover
           (GetHover.without_rejecting HoverDemo.registry tt HoverDemo.position)
           tt HoverDemo.position schedule')
      = JS.Fulfilled hovers.
Proof.
  apply (proj2 (getHover_provider_errors_suppressed
                  HoverDemo.registry tt HoverDemo.position [3; 1; 4; 0; 2]%nat)).
  exact complete_demo_5.
Defined.

(** C3 as it is worded fails: a provider's hover without contents is a hover
    the provider produced, and the array [getHover] resolves with leaves it
    out. *)
Lemma getHover_collects_all_produced_fails :
  GetHover.complete 1 [0%nat] /\
  GetHover.produced
    (GetHover.promises_of HoverDemo.registryEmptyHover tt HoverDemo.position)
  = [HoverDemo.hoverEmpty] /\
  GetHover.returned
    (GetHover.getHover HoverDemo.registryEmptyHover tt HoverDemo.position [0%nat])
  = JS.Fulfilled [] /\
  ~ GetHover.collects_all_produced
      HoverDemo.registryEmptyHover tt HoverDemo.position [0%nat].
Proof.
  split_and!.
  - intros i Hi. assert (i = 0%nat) as -> by lia. apply list_elem_of_here.
  - reflexivity.
  - vm_compute. reflexivity.
  - unfold GetHover.collects_all_produced. vm_compute. discriminate.
Qed.

Lemma getHover_collects_in_registry_order_witness :
  exists hovers,
    GetHover.returned
      (GetHover.getHover HoverDemo.registry tt HoverDemo.position [3; 1; 4; 0; 2]%nat)
    = JS.Fulfilled hovers /\
    hovers = List.filter (fun h => GetHover.hasRange h && GetHover.hasHtmlContent h)
               (GetHover.produced
                  (GetHover.promises_of HoverDemo.registry tt HoverDemo.position)) /\
    hovers `sublist_of`
      GetHover.produced (GetHover.promises_of HoverDemo.registry tt HoverDemo.position).
Proof.
  apply (getHover_collects_in_registry_order
           HoverDemo.registry tt HoverDemo.position [3; 1; 4; 0; 2]%nat).
  exact complete_demo_5.
Defined.

Lemma getHover_keeps_exactly_acceptable_witness :
  exists hovers,
    GetHover.returned
      (GetHover.getHover HoverDemo.registry tt HoverDemo.position [3; 1; 4; 0; 2]%nat)
    = JS.Fulfilled hovers /\
    (forall h, h ∈ hovers <->
       (exists idx,
           GetHover.promises_of HoverDemo.registry tt HoverDemo.position !! idx
           = Some (JS.Resolves (Some h)))
       /\ GetHover.acceptable h) /\
    hovers `sublist_of`
      GetHover.produced (GetHover.promises_of HoverDemo.registry tt HoverDemo.position).
Proof.
  apply (getHover_keeps_exactly_acceptable
           HoverDemo.registry tt HoverDemo.position [3; 1; 4; 0; 2]%nat).
  exact complete_demo_5.
Defined.

Lemma getHover_schedule_independent_witness :
  exists hovers,
    GetHover.returned
      (GetHover.getHover HoverDemo.registry tt HoverDemo.position [3; 1; 4; 0; 2]%nat)
    = JS.Fulfilled hovers /\
    GetHover.returned
      (GetHover.getHover HoverDemo.registry tt HoverDemo.position [0; 1; 2; 3; 4; 2]%nat)
    = JS.Fulfilled hovers.
Proof.
  apply (getHover_schedule_independent HoverDemo.registry HoverDemo.registry
           tt HoverDemo.position [3; 1; 4; 0; 2]%nat [0; 1; 2; 3; 4; 2]%nat).
  - reflexivity.
  - exact complete_demo_5.
  - by apply complete_by_check.
Defined.

Lemma getHover_invokes_each_provider_once_witness :
  GetHover.returned
    (GetHover.getHover HoverDemo.registry tt HoverDemo.position [3; 1; 4; 0; 2]%nat)
  = JS.Fulfilled
      (omap (fun support =>
               GetHover.kept
                 (HoverReport.settlement
                    (GetHover.provideHover support tt HoverDemo.position
                       (GetHover.mkToken false))))
            (GetHover.ordered HoverDemo.registry tt)).
Proof.
  apply (getHover_invokes_each_provider_once
           HoverDemo.registry tt HoverDemo.position [3; 1; 4; 0; 2]%nat).
  exact complete_demo_5.
Defined.


(** ** Facts about [OneCursor] *)

Section OneCursorFacts.

Import Core Cursor.

Context {Markers : Type}.
Variable newRange : Z -> Z -> Z -> Z -> Range.
Variable computeSelection : Range -> Position -> Selection.

Abbreviation Ctx := (CursorContext Markers).
Notation "'_setState''" := (_setState newRange computeSelection).
Notation "'setState''" := (setState newRange computeSelection).

(** The equality test of cursor states decides equality. *)
Lemma SingleCursorState_equals_eq (a b : SingleCursorState) :
  SingleCursorState_equals a b = true <-> a = b.
Proof.
  unfold SingleCursorState_equals, equals, equalsRange. split.
  - intros H. repeat (apply andb_prop in H as [H ?]).
    repeat match goal with
           | E : bool_decide _ = true |- _ => apply bool_decide_eq_true in E
           end.
    destruct a, b; simpl in *; congruence.
  - intros ->. by rewrite !bool_decide_eq_true_2.
Qed.

(** When [_setState] takes its early return, the cursor holds the states
    that were just computed. *)
Lemma unchanged_holds (this : OneCursor) (m v : SingleCursorState) :
  unchanged this m v = true ->
  modelState this = Some m /\ viewState this = Some v.
Proof.
  unfold unchanged.
  destruct (modelState this) as [a|], (viewState this) as [b|]; try done.
  intros [Ha Hb]%andb_prop.
  apply SingleCursorState_equals_eq in Ha, Hb. by subst.
Qed.

(** The view state [_setState] computes agrees with the model state it was
    computed for. *)
Lemma _setState_viewState_agrees (context : Ctx) (m : SingleCursorState)
    (viewState : option SingleCursorState) :
  let v := _setState_viewState newRange context m viewState in
  selectionStartLeftoverVisibleColumns v = selectionStartLeftoverVisibleColumns m /\
  leftoverVisibleColumns v = leftoverVisibleColumns m /\
  corresponds newRange context m v.
Proof.
  destruct viewState as [v0|]; simpl; split_and!; try done.
  - right. eauto.
  - by left.
Qed.

(** What [_setState] leaves in the cursor when it returns: the model state
    and the view state it computed, whether it stored them or found them
    there. *)
Lemma _setState_result (context : Ctx) (modelState viewState : option SingleCursorState)
    (this this' : OneCursor) (markers markers' : Markers) :
  _setState' context modelState viewState this markers = Normal (this', markers') ->
  exists m,
    _setState_modelState context modelState viewState = Normal m /\
    Cursor.modelState this' = Some m /\
    Cursor.viewState this' = Some (_setState_viewState newRange context m viewState).
Proof.
  unfold _setState.
  destruct (_setState_modelState context modelState viewState) as [m|]; [|done].
  destruct (unchanged this m _) eqn:Hsame.
  - intros [= <- <-]. apply unchanged_holds in Hsame as [? ?]. eauto.
  - destruct (_setTrackedRange context _ _ _ markers) as [id markers''].
    intros [= <- <-]. eauto.
Qed.

(** [_setState] returns unless it is given neither state. *)
Lemma _setState_returns (context : Ctx) (modelState viewState : option SingleCursorState)
    (this : OneCursor) (markers : Markers) :
  is_Some modelState \/ is_Some viewState ->
  exists this' markers',
    _setState' context modelState viewState this markers = Normal (this', markers').
Proof.
  intros Hgiven. unfold _setState.
  assert (exists m, _setState_modelState context modelState viewState = Normal m) as [m ->].
  { destruct modelState as [m0|]; simpl; [eauto|].
    destruct viewState as [v0|]; simpl; [eauto|].
    destruct Hgiven as [[? ?]|[? ?]]; done. }
  destruct (unchanged this m _); [eauto|].
  destruct (_setTrackedRange context _ _ _ markers) as [id markers'']. eauto.
Qed.

Lemma _setState_synchronized (context : Ctx)
    (modelState viewState : option SingleCursorState)
    (this this' : OneCursor) (markers markers' : Markers) :
  _setState' context modelState viewState this markers = Normal (this', markers') ->
  synchronized newRange context this'.
Proof.
  intros Hcall. apply _setState_result in Hcall as (m & _ & Hm & Hv).
  exists m, (_setState_viewState newRange context m viewState).
  pose proof (_setState_viewState_agrees context m viewState) as (? & ? & ?).
  by split_and!.
Qed.

Lemma call_synchronized (c : Call Markers) (this this' : OneCursor)
    (markers markers' : Markers) :
  call newRange computeSelection c this markers = Normal (this', markers') ->
  synchronized newRange (call_context c) this'.
Proof.
  destruct c as [context m v|context]; simpl; apply _setState_synchronized.
Qed.

Lemma calls_synchronized (cs : list (Call Markers)) :
  forall (last : Ctx) (this : OneCursor) (markers : Markers),
    synchronized newRange last this ->
    exists last' this' markers',
      calls newRange computeSelection cs last this markers = (last', this', markers') /\
      synchronized newRange last' this'.
Proof.
  induction cs as [|c rest IH]; intros last this markers Hsync; simpl.
  - eauto.
  - destruct (call newRange computeSelection c this markers) as [[this' markers']|] eqn:Hc.
    + apply IH. by eapply call_synchronized.
    + by apply IH.
Qed.

(** C5. A cursor can always be constructed, and after its constructor and
    after any calls of [setState] and [ensureValidState], its model state
    and view state are both there and agree under the context of the last
    call that returned: the leftovers of the view state are those of the
    model state, and the view state's selection start and position are the
    view coordinates of the model state's, converted from them or validated
    against them. A call that throws leaves the cursor as it was, and
    [ensureValidState] returns on such a cursor. *)
Theorem OneCursor_states_synchronized (context : Ctx) (markers : Markers)
    (cs : list (Call Markers)) :
  exists last this markers',
    life newRange computeSelection context markers cs = Normal (last, this, markers') /\
    synchronized newRange last this /\
    forall context',
      exists this'' markers'',
        ensureValidState newRange computeSelection context' this markers'
        = Normal (this'', markers'') /\
        synchronized newRange context' this''.
Proof.
  unfold life, constructor.
  destruct (_setState_returns context
              (Some (mkSingleCursorState (newRange 1 1 1 1) 0 (mkPosition 1 1) 0))
              (Some (mkSingleCursorState (newRange 1 1 1 1) 0 (mkPosition 1 1) 0))
              (mkOneCursor None None None) markers) as (this0 & markers0 & Hnew);
    [left; eauto|].
  rewrite Hnew.
  destruct (calls_synchronized cs context this0 markers0) as (last & this & markers' & -> & Hsync).
  { by eapply _setState_synchronized. }
  exists last, this, markers'. split_and!; try done.
  intros context'. unfold ensureValidState.
  destruct Hsync as (m & v & Hm & Hv & _).
  destruct (_setState_returns context' (modelState this) (viewState this) this markers')
    as (this'' & markers'' & Hcall); [rewrite Hm; left; eauto|].
  exists this'', markers''. split; [done|]. by eapply _setState_synchronized.
Qed.

(** C6. Given a model state, [setState] returns and leaves a model state
    whose selection start is the validated selection start and whose
    position is the validated position of the one given. A leftover is kept
    when validation left its coordinate as it was and is 0 when validation
    changed it. *)
Theorem setState_validates_modelState (context : Ctx) (given : SingleCursorState)
    (viewState : option SingleCursorState) (this : OneCursor) (markers : Markers) :
  exists this' markers' m,
    setState' context (Some given) viewState this markers = Normal (this', markers') /\
    modelState this' = Some m /\
    selectionStart m = validateRange context (selectionStart given) /\
    position m = validatePosition context (position given) /\
    (validateRange context (selectionStart given) = selectionStart given ->
     selectionStartLeftoverVisibleColumns m = selectionStartLeftoverVisibleColumns given) /\
    (validateRange context (selectionStart given) <> selectionStart given ->
     selectionStartLeftoverVisibleColumns m = 0) /\
    (validatePosition context (position given) = position given ->
     leftoverVisibleColumns m = leftoverVisibleColumns given) /\
    (validatePosition context (position given) <> position given ->
     leftoverVisibleColumns m = 0).
Proof.
  unfold setState.
  destruct (_setState_returns context (Some given) viewState this markers)
    as (this' & markers' & Hcall); [left; eauto|].
  pose proof (_setState_result _ _ _ _ _ _ _ Hcall) as (m & Hm & Hstored & _).
  exists this', markers', m. simpl in Hm. injection Hm as <-. simpl.
  unfold equalsRange, equals. split_and!; try done.
  - intros Heq. by rewrite bool_decide_eq_true_2.
  - intros Hne. by rewrite bool_decide_eq_false_2.
  - intros Heq. by rewrite bool_decide_eq_true_2.
  - intros Hne. by rewrite bool_decide_eq_false_2.
Qed.

(** C7. Given a view state only, [setState] leaves the model state converted
    from it and validated, with the view state's leftovers; given a model
    state only, it leaves the view state whose selection start runs between
    the converted ends of the validated model state's selection start and
    whose position is its converted position, with its leftovers. *)
Theorem setState_computes_missing_state (context : Ctx) (given : SingleCursorState)
    (this : OneCursor) (markers : Markers) :
  (exists this' markers',
     setState' context None (Some given) this markers = Normal (this', markers') /\
     modelState this' =
       Some (mkSingleCursorState
               (validateRange context
                  (convertViewRangeToModelRange context (selectionStart given)))
               (selectionStartLeftoverVisibleColumns given)
               (validatePosition context
                  (convertViewPositionToModelPosition context
                     (lineNumber (position given)) (column (position given))))
               (leftoverVisibleColumns given))) /\
  (exists this' markers' m,
     setState' context (Some given) None this markers = Normal (this', markers') /\
     modelState this' = Some m /\
     selectionStart m = validateRange context (selectionStart given) /\
     position m = validatePosition context (position given) /\
     viewState this' =
       Some (mkSingleCursorState
               (convertedRange newRange context (selectionStart m))
               (selectionStartLeftoverVisibleColumns m)
               (convertModelPositionToViewPosition context (position m))
               (leftoverVisibleColumns m))).
Proof.
  unfold setState. split.
  - destruct (_setState_returns context None (Some given) this markers)
      as (this' & markers' & Hcall); [right; eauto|].
    pose proof (_setState_result _ _ _ _ _ _ _ Hcall) as (m & Hm & Hstored & _).
    exists this', markers'. split; [done|]. simpl in Hm. by injection Hm as <-.
  - destruct (_setState_returns context (Some given) None this markers)
      as (this' & markers' & Hcall); [left; eauto|].
    pose proof (_setState_result _ _ _ _ _ _ _ Hcall) as (m & Hm & Hstored & Hview).
    exists this', markers', m. simpl in Hm. injection Hm as <-.
    by split_and!.
Qed.

End OneCursorFacts.

(** On the demo document: a model state beyond the last line is pulled back
    and its leftover is reset, while the untouched selection start keeps
    its own; the view state follows. *)
Example setState_demo :
  Cursor.life (Markers:=CursorDemo.Markers) Core.mkRange CursorDemo.computeSelection
    CursorDemo.context CursorDemo.noMarkers
    [Cursor.CallSetState CursorDemo.context (Some CursorDemo.farAway) None]
  = Cursor.Normal
      (CursorDemo.context,
       Cursor.mkOneCursor
         (Some (Cursor.mkSingleCursorState
                  (Core.mkRange 4 3 4 3) 5 (Core.mkPosition 10 3) 0))
         (Some (Cursor.mkSingleCursorState
                  (Core.mkRange 2 3 2 3) 5 (Core.mkPosition 8 3) 0))
         (Some "marker0"%string),
       (1%nat, {[ "marker0"%string := Core.mkSelection 4 3 10 3 ]})).
Proof. vm_compute. reflexivity. Qed.

(** [setState(context, null, null)] throws and the cursor stays as it
    was. *)
Example setState_null_null :
  Cursor.setState (Markers:=CursorDemo.Markers) Core.mkRange CursorDemo.computeSelection
    CursorDemo.context None None
    (Cursor.mkOneCursor None None None) CursorDemo.noMarkers
  = Cursor.ThrowTypeError.
Proof. reflexivity. Qed.


(** ** Facts about [QuickOpenController] *)

Section QuickOpenFacts.

Import Core QuickOpen.

Implicit Types (w : World) (ed : Editor) (ev : Event).

Lemma decorationId_inj (e n n' : nat) :
  decorationId e n = decorationId e n' -> n = n'.
Proof.
  unfold decorationId. intros H.
  do 2 apply String.app_inj in H. by apply (inj pretty) in H.
Qed.

Lemma decorationId_truthy (e n : nat) : truthy (Some (decorationId e n)) = true.
Proof.
  unfold truthy, decorationId.
  destruct (pretty e +:+ ";" +:+ pretty n) eqn:E; [|done].
  exfalso. destruct (pretty e); simpl in E; discriminate.
Qed.

(** What [deltaDecorations] does with nothing to add. *)
Lemma deltaDecorations_none (e : nat) (old : list string) ed :
  deltaDecorations e old [] ed =
    ([], mkEditor (selection ed) (foldr delete (decorations ed) old) (lastDecorationId ed)).
Proof. reflexivity. Qed.

(** What [deltaDecorations] does with one decoration to add and at most one
    to remove: the new decoration takes the id of the old one when the model
    has it, and a fresh id otherwise. *)
Lemma deltaDecorations_one (e : nat) (old : list string) (d : ModelDeltaDecoration) ed :
  (List.length old <= 1)%nat ->
  exists id last',
    deltaDecorations e old [d] ed =
      ([id], mkEditor (selection ed)
                      (<[id := d]> (foldr delete (decorations ed) old)) last') /\
    ((old = [id] /\ is_Some (decorations ed !! id) /\ last' = lastDecorationId ed) \/
     (id = decorationId e (lastDecorationId ed) /\ last' = S (lastDecorationId ed) /\
      foldr delete (decorations ed) old = decorations ed)).
Proof.
  intros Hlen. destruct old as [|id0 [|? ?]]; simpl in *; [| |lia].
  - eexists _, _. split; [done|]. by right.
  - destruct (decorations ed !! id0) as [d0|] eqn:Hd0; simpl.
    + exists id0, (lastDecorationId ed). split.
      * by rewrite insert_delete_eq.
      * left. eauto.
    + eexists _, _. split.
      * by rewrite (delete_id _ _ Hd0).
      * right. split_and!; try done. by apply delete_id.
Qed.

(** [deltaDecorations] leaves the selection alone. *)
Lemma deltaDecorations_selection (e : nat) (new : list ModelDeltaDecoration) :
  forall (old : list string) ed,
    selection (deltaDecorations e old new ed).2 = selection ed.
Proof.
  induction new as [|d new IH]; intros old ed; simpl; [done|].
  destruct (nextOldNode old (decorations ed)) as [node old'].
  destruct node as [id|];
    match goal with
    | |- context [deltaDecorations e old' new ?ed0] =>
        specialize (IH old' ed0); destruct (deltaDecorations e old' new ed0)
    end; done.
Qed.

(** The decorations to remove, as [decorateLine] and [clearDecorations]
    list them. *)
Lemma recorded_cases (id : option string) :
  (truthy id = true /\ exists s, id = Some s) \/ truthy id = false.
Proof. destruct (truthy id) eqn:E; [left|by right]. destruct id; [eauto|done]. Qed.

Lemma listed_cases w :
  (exists s, rangeHighlightDecorationId (this w) = Some s /\
             truthy (Some s) = true /\ QuickOpenTraces.listed w = [s])
  \/ (truthy (rangeHighlightDecorationId (this w)) = false /\ QuickOpenTraces.listed w = []).
Proof.
  unfold QuickOpenTraces.listed.
  destruct (recorded_cases (rangeHighlightDecorationId (this w)))
    as [[Htruthy [s Hs]]|Hfalsy].
  - left. exists s. rewrite Htruthy, Hs. rewrite Hs in Htruthy. done.
  - right. by rewrite Hfalsy.
Qed.

(** [decorateLine] on an editor without a model does nothing. *)
Lemma decorateLine_no_model r e w :
  editors w !! e = None -> decorateLine r e w = w.
Proof. intros Hnone. unfold decorateLine. by rewrite Hnone. Qed.

(** [decorateLine] on an editor with a model: the decoration on record is
    replaced under its id when the editor has it, and a decoration with a
    fresh id is added otherwise; its id goes on record. *)
Lemma decorateLine_result r e w ed :
  editors w !! e = Some ed ->
  exists id last',
    decorateLine r e w =
      mkWorld (<[e := mkEditor (selection ed)
                        (<[id := mkDecoration r _RANGE_HIGHLIGHT_DECORATION]>
                           (foldr delete (decorations ed) (QuickOpenTraces.listed w)))
                        last']> (editors w))
              (revealed w) (focused w)
              (mkController (editor (this w)) (widget (this w)) (Some id)
                            (lastKnownEditorSelection (this w))) /\
    ((QuickOpenTraces.listed w = [id] /\ is_Some (decorations ed !! id)
      /\ last' = lastDecorationId ed) \/
     (id = decorationId e (lastDecorationId ed) /\ last' = S (lastDecorationId ed) /\
      foldr delete (decorations ed) (QuickOpenTraces.listed w) = decorations ed)).
Proof.
  intros Hed. unfold decorateLine. rewrite Hed.
  fold (QuickOpenTraces.listed w).
  destruct (deltaDecorations_one e (QuickOpenTraces.listed w)
              (mkDecoration r _RANGE_HIGHLIGHT_DECORATION) ed)
    as (id & last' & -> & Hcase).
  { destruct (listed_cases w) as [(s & _ & _ & ->)|[_ ->]]; simpl; lia. }
  exists id, last'. by split.
Qed.

(** No event changes the editor a controller belongs to. *)
Lemma step_editor w ev : editor (this (step w ev)) = editor (this w).
Proof.
  destruct ev as [opts|canceled|r e| |e sel|]; simpl; try done.
  - (* close *)
    unfold close, onClose, clearDecorations; simpl.
    destruct (truthy _); simpl; [destruct (editors w !! _); simpl|];
      by destruct (lastKnownEditorSelection (this w)), canceled.
  - destruct (editors w !! e) as [ed|] eqn:Hed.
    + by destruct (decorateLine_result r e w ed Hed) as (id & last' & -> & _).
    + by rewrite decorateLine_no_model.
  - unfold clearDecorations. destruct (truthy _); [|done].
    by destruct (editors w !! _).
Qed.

Lemma steps_editor evs : forall w, editor (this (steps evs w)) = editor (this w).
Proof.
  unfold steps. induction evs as [|ev evs IH]; intros w; simpl; [done|].
  by rewrite IH, step_editor.
Qed.

(** A highlight is a matter of the editors alone. *)
Lemma highlight_same_editors w w' e id :
  editors w' = editors w -> highlight w' e id <-> highlight w e id.
Proof. unfold highlight. by intros ->. Qed.

(** Moving a selection leaves the decorations alone. *)
Lemma setSelection_lookup e sel w e' ed' :
  editors (setSelection e sel w) !! e' = Some ed' ->
  exists ed, editors w !! e' = Some ed /\
             decorations ed' = decorations ed /\
             lastDecorationId ed' = lastDecorationId ed.
Proof.
  unfold setSelection; simpl. destruct (decide (e = e')) as [->|Hne].
  - rewrite lookup_alter_eq. destruct (editors w !! e') as [ed|]; [|done].
    intros [= <-]. eauto.
  - rewrite lookup_alter_ne by done. eauto.
Qed.

Lemma setSelection_highlight e sel w e' id :
  highlight (setSelection e sel w) e' id <-> highlight w e' id.
Proof.
  unfold highlight. split.
  - intros (ed' & d & Hed & Hd & Hopt).
    apply setSelection_lookup in Hed as (ed & Hed & Hdec & _).
    rewrite Hdec in Hd. eauto.
  - intros (ed & d & Hed & Hd & Hopt). unfold setSelection; simpl.
    destruct (decide (e = e')) as [->|Hne].
    + exists (mkEditor sel (decorations ed) (lastDecorationId ed)), d.
      rewrite lookup_alter_eq, Hed. done.
    + exists ed, d. by rewrite lookup_alter_ne.
Qed.

Lemma setSelection_single e sel w :
  single_highlight w -> single_highlight (setSelection e sel w).
Proof.
  intros [Hone Hrec]. split.
  - intros e' id Hh. apply setSelection_highlight in Hh. by apply Hone.
  - intros id Hid. destruct (Hrec id Hid) as [? ?]. split; [done|].
    by apply setSelection_highlight.
Qed.

Lemma setSelection_ids e sel w :
  ids_given w -> ids_given (setSelection e sel w).
Proof.
  intros Hids e' ed' id Hed Hid.
  apply setSelection_lookup in Hed as (ed & Hed & Hdec & Hlast).
  rewrite Hdec in Hid. rewrite Hlast. by eapply Hids.
Qed.

(** The id [decorateLine] hands out when it reuses none is not in use. *)
Lemma next_id_free w e ed :
  ids_given w -> editors w !! e = Some ed ->
  decorations ed !! decorationId e (lastDecorationId ed) = None.
Proof.
  intros Hids Hed.
  destruct (decorations ed !! decorationId e (lastDecorationId ed)) as [d|] eqn:Hd; [|done].
  destruct (Hids e ed (decorationId e (lastDecorationId ed)) Hed) as (n & Hn & Heq);
    [by rewrite Hd; eauto|].
  apply decorationId_inj in Heq. lia.
Qed.

Lemma decorateLine_ids r e w :
  ids_given w -> ids_given (decorateLine r e w).
Proof.
  intros Hids. destruct (editors w !! e) as [ed|] eqn:Hed;
    [|by rewrite decorateLine_no_model].
  destruct (decorateLine_result r e w ed Hed) as (id & last' & -> & Hcase).
  intros e' ed' id'; simpl. destruct (decide (e' = e)) as [->|Hne].
  - rewrite lookup_insert_eq. intros [= <-]; simpl.
    assert (forall n, (n < lastDecorationId ed)%nat -> (n < last')%nat) as Hmono
      by (destruct Hcase as [(_ & _ & ->)|(_ & -> & _)]; lia).
    destruct (decide (id' = id)) as [->|Hid].
    + intros _. destruct Hcase as [(_ & Hlive & ->)|(-> & -> & _)].
      * by apply (Hids e ed id Hed).
      * exists (lastDecorationId ed). split; [lia|done].
    + rewrite lookup_insert_ne by done. intros [d Hd].
      apply lookup_foldr_delete_Some in Hd as [_ Hd].
      destruct (Hids e ed id' Hed) as (n & Hn & ->); [eauto|].
      exists n. split; [by apply Hmono|done].
  - rewrite lookup_insert_ne by done. apply Hids.
Qed.

Lemma decorateLine_single r w :
  single_highlight w -> single_highlight (decorateLine r (editor (this w)) w).
Proof.
  intros [Hone Hrec].
  destruct (editors w !! editor (this w)) as [ed|] eqn:Hed;
    [|by rewrite decorateLine_no_model].
  destruct (decorateLine_result r _ w ed Hed) as (nid & last' & -> & Hcase).
  set (o := editor (this w)) in *.
  split; simpl.
  - intros e id (ed' & d & Hed' & Hd & Hopt). simpl in Hed'.
    destruct (decide (e = o)) as [->|Hne].
    + split; [done|]. rewrite lookup_insert_eq in Hed'. injection Hed' as <-.
      simpl in Hd. destruct (decide (id = nid)) as [->|Hid]; [done|].
      rewrite lookup_insert_ne in Hd by done.
      apply lookup_foldr_delete_Some in Hd as [Hnotold Hd].
      exfalso. apply Hnotold.
      assert (highlight w o id) as Hh by (exists ed, d; done).
      destruct (Hone o id Hh) as [_ Hid'].
      destruct (Hrec id Hid') as [Htruthy _].
      unfold QuickOpenTraces.listed. rewrite Hid', Htruthy. simpl. apply list_elem_of_here.
    + rewrite lookup_insert_ne in Hed' by done.
      assert (highlight w e id) as Hh by (exists ed', d; done).
      by destruct (Hone e id Hh).
  - intros id [= <-]. split.
    + destruct Hcase as [(Hlisted & _)|(-> & _)]; [|apply decorationId_truthy].
      destruct (listed_cases w) as [(s & _ & Htruthy & Hs)|[_ Hnil]]; [|congruence].
      rewrite Hs in Hlisted. by injection Hlisted as ->.
    + eexists _, _. split_and!.
      * apply lookup_insert_eq.
      * simpl. apply lookup_insert_eq.
      * done.
Qed.

Lemma clearDecorations_ids w :
  ids_given w -> ids_given (clearDecorations w).
Proof.
  intros Hids. unfold clearDecorations.
  destruct (truthy (rangeHighlightDecorationId (this w))); [|done].
  destruct (editors w !! editor (this w)) as [ed|] eqn:Hed; [|done].
  rewrite deltaDecorations_none.
  intros e ed' id; simpl. destruct (decide (e = editor (this w))) as [->|Hne].
  - rewrite lookup_insert_eq. intros [= <-]; simpl. intros [d Hd].
    apply lookup_foldr_delete_Some in Hd as [_ Hd]. apply (Hids _ ed id Hed). eauto.
  - rewrite lookup_insert_ne by done. apply Hids.
Qed.

Lemma clearDecorations_single w :
  single_highlight w -> single_highlight (clearDecorations w).
Proof.
  intros [Hone Hrec]. unfold clearDecorations.
  destruct (recorded_cases (rangeHighlightDecorationId (this w)))
    as [[Htruthy [s Hs]]| ->]; [|done].
  rewrite Htruthy.
  destruct (editors w !! editor (this w)) as [ed|] eqn:Hed; [|done].
  rewrite deltaDecorations_none, Hs. simpl.
  set (o := editor (this w)) in *.
  split; simpl; [|done].
  intros e id (ed' & d & Hed' & Hd & Hopt). simpl in Hed'. exfalso.
  destruct (decide (e = o)) as [->|Hne].
  - rewrite lookup_insert_eq in Hed'. injection Hed' as <-. simpl in Hd.
    apply lookup_delete_Some in Hd as [Hne Hd].
    assert (highlight w o id) as Hh by (exists ed, d; done).
    destruct (Hone o id Hh) as [_ Hid']. congruence.
  - rewrite lookup_insert_ne in Hed' by done.
    assert (highlight w e id) as Hh by (exists ed', d; done).
    by destruct (Hone e id Hh).
Qed.

(** [clearDecorations] leaves no decoration on record that an [if] would
    see, provided the controller's editor shows a model. *)
Lemma clearDecorations_clears w :
  is_Some (editors w !! editor (this w)) ->
  truthy (rangeHighlightDecorationId (this (clearDecorations w))) = false.
Proof.
  intros [ed Hed]. unfold clearDecorations.
  destruct (truthy (rangeHighlightDecorationId (this w))) eqn:Htruthy; [|done].
  by rewrite Hed.
Qed.

(** Changes of the record that touch neither the editors nor the recorded
    decoration keep both properties. *)
Lemma same_decorations_single w w' :
  editors w' = editors w ->
  editor (this w') = editor (this w) ->
  rangeHighlightDecorationId (this w') = rangeHighlightDecorationId (this w) ->
  single_highlight w -> single_highlight w'.
Proof.
  intros Heds Hed Hid [Hone Hrec]. split.
  - intros e id Hh. rewrite Hed, Hid. apply Hone.
    by apply (highlight_same_editors w w').
  - intros id. rewrite Hid, Hed. intros Hs. destruct (Hrec id Hs) as [? ?].
    split; [done|]. by apply (highlight_same_editors w w').
Qed.

Lemma same_decorations_ids w w' :
  editors w' = editors w -> ids_given w -> ids_given w'.
Proof. unfold ids_given. by intros ->. Qed.

Lemma same_decorations_preserves w w' :
  editors w' = editors w ->
  editor (this w') = editor (this w) ->
  rangeHighlightDecorationId (this w') = rangeHighlightDecorationId (this w) ->
  ids_given w -> single_highlight w ->
  ids_given w' /\ single_highlight w'.
Proof.
  intros Heds Hed Hid Hids Hone. split.
  - by apply (same_decorations_ids w).
  - by apply (same_decorations_single w).
Qed.

Lemma onClose_single canceled w :
  single_highlight w -> single_highlight (onClose canceled w).
Proof.
  intros Hone. unfold onClose.
  pose proof (clearDecorations_single w Hone) as Hone1.
  set (w1 := clearDecorations w) in *.
  assert (let w2 := match lastKnownEditorSelection (this w1) with
                    | Some sel =>
                        if canceled
                        then revealRangeInCenterIfOutsideViewport (editor (this w1)) sel Smooth
                               (setSelection (editor (this w1)) sel w1)
                        else w1
                    | None => w1
                    end in
          single_highlight w2) as Hw2.
  { destruct (lastKnownEditorSelection (this w1)) as [sel|]; [|done].
    destruct canceled; [|done].
    apply (same_decorations_single (setSelection (editor (this w1)) sel w1)); try done.
    by apply setSelection_single. }
  simpl in Hw2. by eapply same_decorations_single; [| | |exact Hw2].
Qed.

Lemma onClose_ids canceled w :
  ids_given w -> ids_given (onClose canceled w).
Proof.
  intros Hids. unfold onClose.
  pose proof (clearDecorations_ids w Hids) as Hids1.
  set (w1 := clearDecorations w) in *.
  assert (let w2 := match lastKnownEditorSelection (this w1) with
                    | Some sel =>
                        if canceled
                        then revealRangeInCenterIfOutsideViewport (editor (this w1)) sel Smooth
                               (setSelection (editor (this w1)) sel w1)
                        else w1
                    | None => w1
                    end in
          ids_given w2) as Hw2.
  { destruct (lastKnownEditorSelection (this w1)) as [sel|]; [|done].
    destruct canceled; [|done].
    apply (same_decorations_ids (setSelection (editor (this w1)) sel w1)); [done|].
    by apply setSelection_ids. }
  simpl in Hw2. by eapply same_decorations_ids; [|exact Hw2].
Qed.

Lemma step_single w ev :
  own_editor w ev -> single_highlight w -> single_highlight (step w ev).
Proof.
  intros Hown Hone.
  destruct ev as [opts|canceled|r e| |e sel|]; simpl in *.
  - by apply (same_decorations_single w).
  - unfold close. apply onClose_single. by apply (same_decorations_single w).
  - subst e. by apply decorateLine_single.
  - by apply clearDecorations_single.
  - by apply setSelection_single.
  - by apply (same_decorations_single w).
Qed.

Lemma step_ids w ev : ids_given w -> ids_given (step w ev).
Proof.
  intros Hids.
  destruct ev as [opts|canceled|r e| |e sel|]; simpl in *.
  - by apply (same_decorations_ids w).
  - unfold close. apply onClose_ids. by apply (same_decorations_ids w).
  - by apply decorateLine_ids.
  - by apply clearDecorations_ids.
  - by apply setSelection_ids.
  - by apply (same_decorations_ids w).
Qed.

Lemma step_preserves w ev :
  own_editor w ev ->
  ids_given w -> single_highlight w ->
  ids_given (step w ev) /\ single_highlight (step w ev).
Proof.
  intros Hown Hids Hone. split; [by apply step_ids|by apply step_single].
Qed.

Lemma own_editor_same w w' ev :
  editor (this w') = editor (this w) -> own_editor w ev -> own_editor w' ev.
Proof. destruct ev; simpl; congruence. Qed.

Lemma steps_single evs : forall w,
  Forall (own_editor w) evs ->
  single_highlight w -> single_highlight (steps evs w).
Proof.
  unfold steps. induction evs as [|ev evs IH]; intros w Hown Hone; simpl; [done|].
  apply Forall_cons in Hown as [Hev Hevs].
  apply IH; [|by apply step_single].
  eapply Forall_impl; [exact Hevs|]. intros ev'.
  apply own_editor_same. by rewrite step_editor.
Qed.

Lemma steps_ids evs : forall w, ids_given w -> ids_given (steps evs w).
Proof.
  unfold steps. induction evs as [|ev evs IH]; intros w Hids; simpl; [done|].
  apply IH. by apply step_ids.
Qed.

Lemma steps_preserves evs : forall w,
  Forall (own_editor w) evs ->
  ids_given w -> single_highlight w ->
  ids_given (steps evs w) /\ single_highlight (steps evs w).
Proof.
  intros w Hown Hids Hone. split; [by apply steps_ids|by apply steps_single].
Qed.

(** A further [decorateLine] on the controller's editor puts the new
    highlight on record; with [single_highlight] kept, it is the only one
    alive, so the decoration on record before is gone. *)
Lemma decorateLine_replaces r w :
  single_highlight w ->
  is_Some (editors w !! editor (this w)) ->
  exists id ed',
    rangeHighlightDecorationId (this (decorateLine r (editor (this w)) w)) = Some id /\
    editors (decorateLine r (editor (this w)) w) !! editor (this w) = Some ed' /\
    decorations ed' !! id = Some (mkDecoration r _RANGE_HIGHLIGHT_DECORATION) /\
    forall e id', highlight (decorateLine r (editor (this w)) w) e id' ->
                  e = editor (this w) /\ id' = id.
Proof.
  intros Hone [ed Hed].
  pose proof (decorateLine_single r w Hone) as [Hone' _].
  destruct (decorateLine_result r _ w ed Hed) as (id & last' & Heq & _).
  rewrite Heq in *. simpl in *.
  eexists id, _. split_and!.
  - done.
  - apply lookup_insert_eq.
  - simpl. apply lookup_insert_eq.
  - intros e id' Hh. destruct (Hone' e id' Hh) as [-> Hid]. split; [done|].
    by injection Hid.
Qed.

(** [clearDecorations] leaves no highlight and nothing on record. *)
Lemma clearDecorations_removes w :
  single_highlight w ->
  rangeHighlightDecorationId (this (clearDecorations w)) = None /\
  forall e id, ~ highlight (clearDecorations w) e id.
Proof.
  intros Hone.
  pose proof (clearDecorations_single w Hone) as [Hone' _].
  assert (rangeHighlightDecorationId (this (clearDecorations w)) = None) as Hnone.
  { destruct Hone as [_ Hrec]. unfold clearDecorations.
    destruct (rangeHighlightDecorationId (this w)) as [s|] eqn:Hs; [|done].
    destruct (Hrec s eq_refl) as [Htruthy (ed & d & Hed & _)].
    rewrite Htruthy, Hed. by rewrite deltaDecorations_none. }
  split; [done|]. intros e id Hh. apply Hone' in Hh as [_ Hh]. congruence.
Qed.

(** C10, amended. Starting from a controller whose
    [rangeHighlightDecorationId] is [null] or the id of the only live range
    highlight, and as long as [decorateLine] is handed the controller's own
    editor, the controller keeps at most one range highlight alive:
    [rangeHighlightDecorationId] is [null] or the id of the one live range
    highlight, after any sequence of events. From there a [decorateLine] on
    an editor with a model puts the decoration it adds on record, in place
    of the one on record before, and no other range highlight is alive;
    [clearDecorations] removes the decoration on record and leaves [null]
    on record, and no range highlight is alive. *)
Theorem rangeHighlight_single_in_own_editor (w : World) (evs : list Event) :
  single_highlight w ->
  Forall (own_editor w) evs ->
  single_highlight (steps evs w) /\
  (forall r,
     is_Some (editors (steps evs w) !! editor (this w)) ->
     exists id ed',
       rangeHighlightDecorationId (this (decorateLine r (editor (this w)) (steps evs w)))
       = Some id /\
       editors (decorateLine r (editor (this w)) (steps evs w)) !! editor (this w)
       = Some ed' /\
       decorations ed' !! id = Some (mkDecoration r _RANGE_HIGHLIGHT_DECORATION) /\
       forall e id',
         highlight (decorateLine r (editor (this w)) (steps evs w)) e id' ->
         e = editor (this w) /\ id' = id) /\
  rangeHighlightDecorationId (this (clearDecorations (steps evs w))) = None /\
  (forall e id, ~ highlight (clearDecorations (steps evs w)) e id).
Proof.
  intros Hone Hown.
  pose proof (steps_single evs w Hown Hone) as Hone'.
  split; [done|]. split.
  - intros r Hmodel. rewrite <- (steps_editor evs w) in *.
    by apply decorateLine_replaces.
  - by apply clearDecorations_removes.
Qed.



(** [clearDecorations] and the editors: the selections stay, and so does
    what was asked of the editors. *)
Lemma clearDecorations_frame w :
  (forall e, getSelection e (clearDecorations w) = getSelection e w) /\
  revealed (clearDecorations w) = revealed w /\
  focused (clearDecorations w) = focused w /\
  editor (this (clearDecorations w)) = editor (this w) /\
  lastKnownEditorSelection (this (clearDecorations w)) = lastKnownEditorSelection (this w).
Proof.
  unfold clearDecorations. destruct (truthy _); [|done].
  destruct (editors w !! editor (this w)) as [ed|] eqn:Hed; [|done].
  rewrite deltaDecorations_none. split_and!; try done.
  intros e. unfold getSelection; simpl. destruct (decide (e = editor (this w))) as [->|Hne].
  - by rewrite lookup_insert_eq, Hed.
  - by rewrite lookup_insert_ne.
Qed.




End QuickOpenFacts.

(** The preview on the demo world, closed as canceled: the selection of
    line 12 is back, revealed, and the editor has the focus. *)
Example close_demo_canceled :
  let closed :=
    QuickOpen.close true
      (QuickOpen.steps QuickOpenDemo.preview
         (QuickOpen.run QuickOpenDemo.opts QuickOpenDemo.world)) in
  QuickOpen.getSelection 0 closed = Some (QuickOpenDemo.atLine 12) /\
  QuickOpen.revealed closed = [(0%nat, QuickOpenDemo.atLine 12, QuickOpen.Smooth)] /\
  QuickOpen.focused closed = [0%nat] /\
  QuickOpen.this closed
  = QuickOpen.mkController 0 (Some (QuickOpen.mkWidget "Go to line" false)) None None.
Proof. vm_compute. done. Qed.

(** The same, closed by a choice: the selection stays where the preview
    left it. *)
Example close_demo_chosen :
  let closed :=
    QuickOpen.close false
      (QuickOpen.steps QuickOpenDemo.preview
         (QuickOpen.run QuickOpenDemo.opts QuickOpenDemo.world)) in
  QuickOpen.getSelection 0 closed = Some (QuickOpenDemo.atLine 41) /\
  QuickOpen.revealed closed = [] /\
  QuickOpen.focused closed = [0%nat].
Proof. vm_compute. done. Qed.

Lemma demo_world_ids_given : QuickOpen.ids_given QuickOpenDemo.world.
Proof.
  intros e ed id Hed [d Hd]. unfold QuickOpenDemo.world in Hed; simpl in Hed.
  destruct (decide (e = 0%nat)) as [->|H0].
  - rewrite lookup_insert_eq in Hed. injection Hed as <-. by simpl in Hd.
  - rewrite lookup_insert_ne in Hed by done.
    destruct (decide (e = 1%nat)) as [->|H1].
    + rewrite lookup_singleton_eq in Hed. injection Hed as <-. by simpl in Hd.
    + by rewrite lookup_singleton_ne in Hed.
Qed.

Lemma demo_world_single_highlight : QuickOpen.single_highlight QuickOpenDemo.world.
Proof.
  split; [|done].
  intros e id (ed & d & Hed & Hd & _). exfalso.
  destruct (demo_world_ids_given e ed id Hed) as (n & Hn & _); [eauto|].
  unfold QuickOpenDemo.world in Hed; simpl in Hed.
  destruct (decide (e = 0%nat)) as [->|H0].
  - rewrite lookup_insert_eq in Hed. injection Hed as <-. simpl in Hn. lia.
  - rewrite lookup_insert_ne in Hed by done.
    destruct (decide (e = 1%nat)) as [->|H1].
    + rewrite lookup_singleton_eq in Hed. injection Hed as <-. simpl in Hn. lia.
    + by rewrite lookup_singleton_ne in Hed.
Qed.

Lemma preview_own_editor :
  Forall (QuickOpen.own_editor QuickOpenDemo.world)
         (QuickOpen.Run QuickOpenDemo.opts :: QuickOpenDemo.preview ++ [QuickOpen.Close true]).
Proof. repeat constructor. Qed.


Lemma rangeHighlight_single_in_own_editor_witness :
  let w := QuickOpenDemo.world in
  let evs := QuickOpen.Run QuickOpenDemo.opts
               :: QuickOpenDemo.preview ++ [QuickOpen.Close true] in
  QuickOpen.single_highlight (QuickOpen.steps evs w) /\
  (forall r,
     is_Some (QuickOpen.editors (QuickOpen.steps evs w) !! QuickOpen.editor (QuickOpen.this w)) ->
     exists id ed',
       QuickOpen.rangeHighlightDecorationId
         (QuickOpen.this
            (QuickOpen.decorateLine r (QuickOpen.editor (QuickOpen.this w))
               (QuickOpen.steps evs w)))
       = Some id /\
       QuickOpen.editors
         (QuickOpen.decorateLine r (QuickOpen.editor (QuickOpen.this w)) (QuickOpen.steps evs w))
         !! QuickOpen.editor (QuickOpen.this w)
       = Some ed' /\
       QuickOpen.decorations ed' !! id
       = Some (QuickOpen.mkDecoration r QuickOpen._RANGE_HIGHLIGHT_DECORATION) /\
       forall e id',
         QuickOpen.highlight
           (QuickOpen.decorateLine r (QuickOpen.editor (QuickOpen.this w))
              (QuickOpen.steps evs w)) e id' ->
         e = QuickOpen.editor (QuickOpen.this w) /\ id' = id) /\
  QuickOpen.rangeHighlightDecorationId
    (QuickOpen.this (QuickOpen.clearDecorations (QuickOpen.steps evs w))) = None /\
  (forall e id, ~ QuickOpen.highlight (QuickOpen.clearDecorations (QuickOpen.steps evs w)) e id).
Proof.
  apply (rangeHighlight_single_in_own_editor QuickOpenDemo.world
           (QuickOpen.Run QuickOpenDemo.opts :: QuickOpenDemo.preview ++ [QuickOpen.Close true])).
  - exact demo_world_single_highlight.
  - exact preview_own_editor.
Defined.

(** C10 as it is worded fails: [decorateLine] changes the decorations of the
    editor it is handed. Handed another editor than the one before, it leaves
    the first highlight alive there and records the second: two range
    highlights are alive and the first is on record nowhere. *)
Lemma rangeHighlight_left_in_other_editor :
  let w := QuickOpen.steps QuickOpenDemo.acrossEditors QuickOpenDemo.world in
  QuickOpen.ids_given QuickOpenDemo.world /\
  QuickOpen.single_highlight QuickOpenDemo.world /\
  QuickOpen.highlight w 0 "0;0" /\
  QuickOpen.highlight w 1 "1;0" /\
  QuickOpen.rangeHighlightDecorationId (QuickOpen.this w) = Some "1;0"%string /\
  ~ QuickOpen.single_highlight w.
Proof.
  assert (QuickOpen.highlight
            (QuickOpen.steps QuickOpenDemo.acrossEditors QuickOpenDemo.world) 0 "0;0") as H0.
  { eexists _, _. split_and!; [vm_compute; reflexivity|vm_compute; reflexivity|done]. }
  split_and!.
  - exact demo_world_ids_given.
  - exact demo_world_single_highlight.
  - exact H0.
  - eexists _, _. split_and!; [vm_compute; reflexivity|vm_compute; reflexivity|done].
  - vm_compute. reflexivity.
  - intros [Hone _]. destruct (Hone _ _ H0) as [_ Hrec].
    vm_compute in Hrec. discriminate.
Qed.





(** Two previews in a row in the controller's editor: the second highlight
    takes the place and the id of the first. *)
Example decorateLine_twice_one_id :
  let w :=
    QuickOpen.steps
      [ QuickOpen.DecorateLine (QuickOpenDemo.lineRange 40) 0;
        QuickOpen.DecorateLine (QuickOpenDemo.lineRange 41) 0 ]
      QuickOpenDemo.world in
  QuickOpen.rangeHighlightDecorationId (QuickOpen.this w) = Some "0;0"%string /\
  QuickOpen.editors w !! 0%nat
  = Some (QuickOpen.mkEditor (QuickOpenDemo.atLine 12)
            {[ "0;0"%string :=
                 QuickOpen.mkDecoration (QuickOpenDemo.lineRange 41)
                   QuickOpen._RANGE_HIGHLIGHT_DECORATION ]}
            1).
Proof. vm_compute. done. Qed.


(** ** More about [getHover]: waiting and reporting *)

Section GetHoverReporting.

Import GetHover HoverReport.

Context {Model Err : Type}.

Implicit Types (ps : list (JS.settled (option Hover) Err)) (c : Collect Err).

Lemma elem_of_rev_list (i : nat) (l : list nat) : i ∈ rev l <-> i ∈ l.
Proof. rewrite !list_elem_of_In. symmetry. apply in_rev. Qed.

(** X1. [getHover] does not settle before each of its providers has: while
    the promise of some provider is outstanding, its own promise is
    pending. *)
Theorem getHover_pending_until_all_settled (registry : Registry Model Err)
    (model : Model) (position : Core.Position) (schedule : list nat) (i : nat) :
  (i < List.length (ordered registry model))%nat ->
  i ∉ schedule ->
  returned (getHover registry model position schedule) = JS.Pending.
Proof.
  intros Hi Hout. unfold getHover. rewrite fan_out_spec. simpl.
  set (ps := map _ (ordered registry model)).
  assert (List.length ps = List.length (ordered registry model)) as Hn
    by (unfold ps; apply length_map).
  pose proof (settled_so_far_all ps schedule [] _ (settled_so_far_init ps)) as (Hch & _).
  rewrite app_nil_r in Hch. unfold join.
  assert (forallb (fun j => bool_decide (is_Some (chained (settle_all ps schedule
                     (mkCollect JS.empty [] ∅)) !! j)))
                  (seq 0 (List.length ps)) = false) as ->; [|done].
  apply not_true_is_false. intros Hall. rewrite forallb_forall in Hall.
  specialize (Hall i). rewrite Hch in Hall.
  rewrite decide_False in Hall.
  - assert (bool_decide (is_Some (@None (JS.settled unit Err))) = true) as Hbad
      by (apply Hall, in_seq; lia).
    apply bool_decide_eq_true in Hbad. by destruct Hbad.
  - by rewrite elem_of_rev_list.
Qed.

(** The errors on record after a promise settles for the first time. *)
Lemma settle_reported idx (p : JS.settled (option Hover) Err) c :
  chained c !! idx = None ->
  reported (settle idx p c) = reported c ++ option_list (failure p).
Proof.
  intros Hc. unfold settle. rewrite Hc.
  destruct p as [[h|]|err]; simpl; rewrite ?app_nil_r; try done.
  destruct (hasRange h && hasHtmlContent h); simpl; by rewrite ?app_nil_r.
Qed.

Lemma reported_so_far_step ps seen c idx :
  settled_so_far ps seen c ->
  reported_so_far ps seen c ->
  reported_so_far ps (idx :: seen)
    (match ps !! idx with Some p => settle idx p c | None => c end).
Proof.
  intros (Hch & _) Hrep. unfold reported_so_far in *.
  change (remove_dups (idx :: seen))
    with (if decide_rel (∈) idx seen then remove_dups seen else idx :: remove_dups seen).
  destruct (ps !! idx) as [p|] eqn:Hp.
  - destruct (chained c !! idx) as [u|] eqn:Hc.
    + rewrite settle_again by eauto.
      assert (idx ∈ seen) as Hin.
      { specialize (Hch idx). rewrite Hc in Hch. by destruct (decide (idx ∈ seen)). }
      by destruct (decide_rel (∈) idx seen).
    + assert (idx ∉ seen) as Hnin.
      { intros Hin. specialize (Hch idx). rewrite Hc, Hp in Hch.
        by rewrite decide_True in Hch. }
      destruct (decide_rel (∈) idx seen); [done|].
      rewrite settle_reported by done. csimpl. rewrite Hp. simpl.
      destruct (failure p) as [err|]; simpl.
      * rewrite Hrep. symmetry. apply Permutation_cons_append.
      * by rewrite app_nil_r.
  - destruct (decide_rel (∈) idx seen); [done|]. csimpl. by rewrite Hp.
Qed.

Lemma reported_so_far_all ps schedule : forall seen c,
  settled_so_far ps seen c ->
  reported_so_far ps seen c ->
  reported_so_far ps (rev schedule ++ seen) (settle_all ps schedule c).
Proof.
  unfold settle_all.
  induction schedule as [|idx rest IH]; intros seen c Hset Hrep; simpl; [done|].
  rewrite <- app_assoc. simpl. apply IH.
  - by apply settled_so_far_step.
  - by apply reported_so_far_step.
Qed.

(** Indices that name no promise add nothing, and the others are the
    indices of the promises. *)
Lemma omap_over_indices {B} (f : nat -> option B) (n : nat) (l : list nat) :
  NoDup l ->
  (forall i, (i < n)%nat -> i ∈ l) ->
  (forall i, (n <= i)%nat -> f i = None) ->
  omap f l ≡ₚ omap f (seq 0 n).
Proof.
  intros Hnodup Hall Hnone.
  assert (omap f l = omap f (filter (fun i => (i < n)%nat) l)) as ->.
  { clear Hnodup Hall. induction l as [|i l IH]; [done|].
    rewrite filter_cons. destruct (decide (i < n)%nat) as [Hlt|Hge]; csimpl.
    - by rewrite IH.
    - rewrite Hnone by lia. done. }
  apply omap_Permutation, NoDup_Permutation.
  - by apply NoDup_filter.
  - apply NoDup_seq.
  - intros i. rewrite list_elem_of_filter, elem_of_seq. split.
    + intros [? ?]. lia.
    + intros [_ Hi]. split; [lia|]. apply Hall. lia.
Qed.

(** X2. Once every provider has settled, the errors handed to
    [onUnexpectedExternalError] are the errors of the rejected provider
    promises, each of them once, however often and in whatever order the
    schedule names a provider. *)
Theorem getHover_reports_each_rejection_once (registry : Registry Model Err)
    (model : Model) (position : Core.Position) (schedule : list nat) :
  complete (List.length (ordered registry model)) schedule ->
  errors (getHover registry model position schedule)
  ≡ₚ rejections (promises_of registry model position).
Proof.
  intros Hall. unfold getHover. rewrite fan_out_spec. simpl.
  fold (promises_of registry model position).
  set (ps := promises_of registry model position).
  assert (List.length ps = List.length (ordered registry model)) as Hn
    by (unfold ps, promises_of; apply length_map).
  pose proof (reported_so_far_all ps schedule [] _
                (settled_so_far_init ps) (reflexivity _)) as Hrep.
  rewrite app_nil_r in Hrep. unfold reported_so_far in Hrep. rewrite Hrep.
  unfold rejections. rewrite <- (omap_seq_lookup failure ps).
  apply omap_over_indices.
  - apply NoDup_remove_dups.
  - intros i Hi. apply elem_of_remove_dups, elem_of_rev_list, Hall. lia.
  - intros i Hi. rewrite lookup_ge_None_2; [done|lia].
Qed.

Lemma omap_length_le {A B} (f : A -> option B) (l : list A) :
  (List.length (omap f l) <= List.length l)%nat.
Proof.
  induction l as [|x l IH]; [done|]. csimpl. destruct (f x); simpl; lia.
Qed.

(** X3. The array [getHover] resolves with holds at most one hover for each
    provider. *)
Theorem getHover_at_most_one_per_provider (registry : Registry Model Err)
    (model : Model) (position : Core.Position) (schedule : list nat)
    (hovers : list Hover) :
  returned (getHover registry model position schedule) = JS.Fulfilled hovers ->
  (List.length hovers <= List.length (ordered registry model))%nat.
Proof.
  intros Hret.
  assert (hovers = omap kept (promises_of registry model position)) as ->.
  { destruct (decide (Forall (fun i => i ∈ schedule)
                        (seq 0 (List.length (ordered registry model))))) as [Hall|Hnot].
    - rewrite getHover_complete in Hret; [by injection Hret|].
      intros i Hi. rewrite Forall_forall in Hall. apply Hall, elem_of_seq. lia.
    - apply not_Forall_Exists in Hnot; [|apply _].
      apply Exists_exists in Hnot as (i & Hi & Hout). apply elem_of_seq in Hi.
      rewrite (getHover_pending_until_all_settled registry model position schedule i)
        in Hret; [done|lia|done]. }
  rewrite <- (length_map (fun support => asWinJsPromise (provideHover support model position))).
  fold (promises_of registry model position). apply omap_length_le.
Qed.

(** X4. Without providers for the model, [getHover] invokes nothing, reports
    nothing and resolves with the empty array, whatever settles elsewhere. *)
Theorem getHover_without_providers (registry : Registry Model Err)
    (model : Model) (position : Core.Position) (schedule : list nat) :
  ordered registry model = [] ->
  getHover registry model position schedule = mkOutcome [] [] (JS.Fulfilled []).
Proof.
  intros Hnone. unfold getHover. rewrite Hnone. simpl.
  assert (settle_all (@nil (JS.settled (option Hover) Err)) schedule
            (mkCollect JS.empty [] ∅) = mkCollect JS.empty [] ∅) as ->; [|done].
  unfold settle_all. induction schedule as [|idx rest IH]; [done|].
  simpl. destruct idx; exact IH.
Qed.

End GetHoverReporting.

Lemma getHover_pending_until_all_settled_witness :
  GetHover.returned
    (GetHover.getHover HoverDemo.registry tt HoverDemo.position [3; 1; 0; 2]%nat)
  = JS.Pending.
Proof.
  apply (getHover_pending_until_all_settled
           HoverDemo.registry tt HoverDemo.position [3; 1; 0; 2]%nat 4%nat).
  - simpl. lia.
  - intros Hin. repeat (apply elem_of_cons in Hin as [Hin|Hin]; [discriminate|]).
    by apply elem_of_nil in Hin.
Defined.

Lemma getHover_reports_each_rejection_once_witness :
  GetHover.errors
    (GetHover.getHover HoverDemo.registry tt HoverDemo.position [3; 3; 1; 4; 0; 9; 1; 2]%nat)
  ≡ₚ HoverReport.rejections
       (GetHover.promises_of HoverDemo.registry tt HoverDemo.position).
Proof.
  apply (getHover_reports_each_rejection_once
           HoverDemo.registry tt HoverDemo.position [3; 3; 1; 4; 0; 9; 1; 2]%nat).
  by apply complete_by_check.
Defined.

Lemma getHover_at_most_one_per_provider_witness :
  (List.length [HoverDemo.hoverDoc; HoverDemo.hoverType]
   <= List.length (GetHover.ordered HoverDemo.registry tt))%nat.
Proof.
  apply (getHover_at_most_one_per_provider
           HoverDemo.registry tt HoverDemo.position [3; 1; 4; 0; 2]%nat).
  vm_compute. reflexivity.
Defined.

Lemma getHover_without_providers_witness :
  GetHover.getHover (Model:=unit) (Err:=string) (GetHover.mkRegistry (fun _ => []))
    tt HoverDemo.position [2; 0]%nat
  = GetHover.mkOutcome [] [] (JS.Fulfilled []).
Proof.
  apply (getHover_without_providers (GetHover.mkRegistry (fun _ => []))
           tt HoverDemo.position [2; 0]%nat).
  reflexivity.
Defined.


(** ** More about [OneCursor]: repeated calls *)

Section OneCursorRepeats.

Import Core Cursor.

Context {Markers : Type}.
Variable newRange : Z -> Z -> Z -> Z -> Range.
Variable computeSelection : Range -> Position -> Selection.

Abbreviation Ctx' := (CursorContext Markers).

(** A cursor that holds the states [_setState] computes is left alone. *)
Lemma _setState_noop (context : Ctx') (modelState viewState : option SingleCursorState)
    (this : OneCursor) (markers : Markers) (m : SingleCursorState) :
  _setState_modelState context modelState viewState = Normal m ->
  Cursor.modelState this = Some m ->
  Cursor.viewState this = Some (_setState_viewState newRange context m viewState) ->
  _setState newRange computeSelection context modelState viewState this markers
  = Normal (this, markers).
Proof.
  intros Hm Hthis Hview. unfold _setState. rewrite Hm.
  assert (unchanged this m (_setState_viewState newRange context m viewState) = true) as ->;
    [|done].
  unfold unchanged. rewrite Hthis, Hview.
  apply andb_true_intro. split; by apply SingleCursorState_equals_eq.
Qed.

(** X5. A [setState] call that is repeated does nothing the second time:
    the cursor stays as the first call left it and the model's tracked
    ranges are not touched again. *)
Theorem setState_repeated_is_noop (context : Ctx')
    (modelState viewState : option SingleCursorState)
    (this this' : OneCursor) (markers markers' : Markers) :
  setState newRange computeSelection context modelState viewState this markers
  = Normal (this', markers') ->
  setState newRange computeSelection context modelState viewState this' markers'
  = Normal (this', markers').
Proof.
  unfold setState. intros Hcall.
  destruct (_setState_result newRange computeSelection _ _ _ _ _ _ _ Hcall)
    as (m & Hm & Hmodel & Hview).
  by apply (_setState_noop context modelState viewState this' markers' m).
Qed.

(** X6. The states [setState] leaves depend on the context and on the states
    it is given, not on what the cursor held before. *)
Theorem setState_overwrites (context : Ctx')
    (modelState viewState : option SingleCursorState)
    (this1 this2 this1' this2' : OneCursor) (markers1 markers2 markers1' markers2' : Markers) :
  setState newRange computeSelection context modelState viewState this1 markers1
  = Normal (this1', markers1') ->
  setState newRange computeSelection context modelState viewState this2 markers2
  = Normal (this2', markers2') ->
  Cursor.modelState this1' = Cursor.modelState this2' /\
  Cursor.viewState this1' = Cursor.viewState this2'.
Proof.
  unfold setState. intros Hcall1 Hcall2.
  destruct (_setState_result newRange computeSelection _ _ _ _ _ _ _ Hcall1)
    as (m1 & Hm1 & Hmodel1 & Hview1).
  destruct (_setState_result newRange computeSelection _ _ _ _ _ _ _ Hcall2)
    as (m2 & Hm2 & Hmodel2 & Hview2).
  rewrite Hm1 in Hm2. injection Hm2 as <-.
  by rewrite Hmodel1, Hmodel2, Hview1, Hview2.
Qed.

(** X7. When validation is idempotent, so is [ensureValidState] on a cursor
    that has a view state: a second call with the same context changes
    neither the cursor nor the tracked ranges. *)
Theorem ensureValidState_idempotent (context : Ctx')
    (this this' : OneCursor) (markers markers' : Markers) :
  (forall r, validateRange context (validateRange context r) = validateRange context r) ->
  (forall p, validatePosition context (validatePosition context p)
             = validatePosition context p) ->
  (forall v r, validateViewRange context (validateViewRange context v r) r
               = validateViewRange context v r) ->
  (forall v p, validateViewPosition context (validateViewPosition context v p) p
               = validateViewPosition context v p) ->
  is_Some (viewState this) ->
  ensureValidState newRange computeSelection context this markers = Normal (this', markers') ->
  ensureValidState newRange computeSelection context this' markers' = Normal (this', markers').
Proof.
  intros HvR HvP HvvR HvvP [v Hv] Hcall. unfold ensureValidState in *.
  destruct (_setState_result newRange computeSelection _ _ _ _ _ _ _ Hcall)
    as (m & Hm & Hmodel & Hview).
  rewrite Hv in Hm, Hview. simpl in Hview.
  assert (validateRange context (selectionStart m) = selectionStart m
          /\ validatePosition context (position m) = position m) as [HmR HmP].
  { destruct (modelState this) as [m0|]; simpl in Hm; injection Hm as <-; simpl;
      by rewrite HvR, HvP. }
  rewrite Hmodel, Hview.
  apply (_setState_noop context _ _ this' markers' m).
  - simpl. unfold equalsRange, equals. rewrite HmR, HmP.
    rewrite !bool_decide_eq_true_2 by done. by destruct m.
  - done.
  - rewrite Hview. simpl. by rewrite HvvR, HvvP.
Qed.

(** X8. A new cursor has no leftover columns; its model state is the
    validated first position of the document and its view state is that of
    the view, validated against it. *)
Theorem constructor_state (context : Ctx') (markers : Markers) :
  exists this markers',
    constructor newRange computeSelection context markers = Normal (this, markers') /\
    modelState this
    = Some (mkSingleCursorState (validateRange context (newRange 1 1 1 1)) 0
              (validatePosition context (mkPosition 1 1)) 0) /\
    viewState this
    = Some (mkSingleCursorState
              (validateViewRange context (newRange 1 1 1 1)
                 (validateRange context (newRange 1 1 1 1)))
              0
              (validateViewPosition context (mkPosition 1 1)
                 (validatePosition context (mkPosition 1 1)))
              0).
Proof.
  unfold constructor.
  destruct (_setState_returns newRange computeSelection context
              (Some (mkSingleCursorState (newRange 1 1 1 1) 0 (mkPosition 1 1) 0))
              (Some (mkSingleCursorState (newRange 1 1 1 1) 0 (mkPosition 1 1) 0))
              (mkOneCursor None None None) markers) as (this & markers' & Hnew);
    [left; eauto|].
  exists this, markers'. split; [done|].
  destruct (_setState_result newRange computeSelection _ _ _ _ _ _ _ Hnew)
    as (m & Hm & Hmodel & Hview).
  simpl in Hm. injection Hm as <-. rewrite Hmodel, Hview. simpl.
  by destruct (equalsRange _ _), (equals _ _).
Qed.

End OneCursorRepeats.

Lemma setState_repeated_is_noop_witness :
  Cursor.setState (Markers:=CursorDemo.Markers) Core.mkRange CursorDemo.computeSelection
    CursorDemo.context (Some CursorDemo.farAway) None
    CursorStates.pulledBack CursorStates.pulledBackMarkers
  = Cursor.Normal (CursorStates.pulledBack, CursorStates.pulledBackMarkers).
Proof.
  apply (setState_repeated_is_noop Core.mkRange CursorDemo.computeSelection
           CursorDemo.context (Some CursorDemo.farAway) None
           CursorStates.blank _ CursorDemo.noMarkers).
  vm_compute. reflexivity.
Defined.

Lemma setState_overwrites_witness :
  Cursor.modelState CursorStates.pulledBack = Cursor.modelState CursorStates.pulledBack /\
  Cursor.viewState CursorStates.pulledBack = Cursor.viewState CursorStates.pulledBack.
Proof.
  apply (setState_overwrites Core.mkRange CursorDemo.computeSelection
           CursorDemo.context (Some CursorDemo.farAway) None
           CursorStates.blank CursorStates.fresh
           CursorStates.pulledBack CursorStates.pulledBack
           CursorDemo.noMarkers CursorStates.freshMarkers
           CursorStates.pulledBackMarkers CursorStates.pulledBackMarkers).
  - vm_compute. reflexivity.
  - vm_compute. reflexivity.
Defined.

Lemma clampLine_idempotent (l : Z) :
  CursorDemo.clampLine (CursorDemo.clampLine l) = CursorDemo.clampLine l.
Proof. unfold CursorDemo.clampLine. lia. Qed.

Lemma clampColumn_idempotent (c : Z) :
  CursorDemo.clampColumn (CursorDemo.clampColumn c) = CursorDemo.clampColumn c.
Proof. unfold CursorDemo.clampColumn. lia. Qed.

Lemma ensureValidState_idempotent_witness :
  Cursor.ensureValidState (Markers:=CursorDemo.Markers) Core.mkRange
    CursorDemo.computeSelection CursorDemo.context
    CursorStates.broughtBack CursorStates.pulledBackMarkers
  = Cursor.Normal (CursorStates.broughtBack, CursorStates.pulledBackMarkers).
Proof.
  apply (ensureValidState_idempotent Core.mkRange CursorDemo.computeSelection
           CursorDemo.context CursorStates.astray _ CursorDemo.noMarkers).
  - intros r. simpl. unfold CursorDemo.validateRange. simpl.
    by rewrite !clampLine_idempotent, !clampColumn_idempotent.
  - intros p. simpl. unfold CursorDemo.validatePosition. simpl.
    by rewrite clampLine_idempotent, clampColumn_idempotent.
  - intros v r. simpl. f_equal; lia.
  - intros v p. simpl. f_equal; lia.
  - simpl. eauto.
  - vm_compute. reflexivity.
Defined.


(** ** More about [QuickOpenController]: what it leaves behind *)

Section QuickOpenTracesFacts.

Import Core QuickOpen QuickOpenTraces.

Implicit Types (w : World) (ed : Editor) (ev : Event).

Lemma only_own_highlight_same w0 w w' :
  editors w' = editors w ->
  rangeHighlightDecorationId (this w') = rangeHighlightDecorationId (this w) ->
  only_own_highlight w0 w -> only_own_highlight w0 w'.
Proof. unfold only_own_highlight. by intros -> ->. Qed.

Lemma setSelection_decorations e sel w e' :
  decorations <$> editors (setSelection e sel w) !! e' = decorations <$> editors w !! e'.
Proof.
  unfold setSelection; simpl. destruct (decide (e = e')) as [->|Hne].
  - rewrite lookup_alter_eq. by destruct (editors w !! e').
  - by rewrite lookup_alter_ne.
Qed.

Lemma only_own_highlight_setSelection w0 w e sel :
  only_own_highlight w0 w -> only_own_highlight w0 (setSelection e sel w).
Proof.
  intros [Hothers Hown]. split.
  - intros e' He'. rewrite setSelection_decorations. by apply Hothers.
  - change (rangeHighlightDecorationId (this (setSelection e sel w)))
      with (rangeHighlightDecorationId (this w)).
    destruct (rangeHighlightDecorationId (this w)) as [id|].
    + destruct Hown as (ed0 & ed & d & Hed0 & Hed & Hfree & Hdec).
      pose proof (setSelection_decorations e sel w (editor (this w0))) as Hsame.
      rewrite Hed in Hsame.
      destruct (editors (setSelection e sel w) !! editor (this w0)) as [ed'|] eqn:Hed';
        [|done].
      injection Hsame as Hsame. exists ed0, ed', d. split_and!; try done. congruence.
    + by rewrite setSelection_decorations.
Qed.

Lemma only_own_highlight_clearDecorations w0 w :
  editor (this w) = editor (this w0) ->
  only_own_highlight w0 w -> only_own_highlight w0 (clearDecorations w).
Proof.
  intros Heditor [Hothers Hown]. unfold clearDecorations.
  destruct (recorded_cases (rangeHighlightDecorationId (this w)))
    as [[Htruthy [s Hs]]| ->]; [|done].
  rewrite Htruthy, Heditor. rewrite Hs in Hown.
  destruct Hown as (ed0 & ed & d & Hed0 & Hed & Hfree & Hdec).
  rewrite Hed, deltaDecorations_none, Hs. simpl. split; simpl.
  - intros e He. rewrite lookup_insert_ne by done. by apply Hothers.
  - rewrite lookup_insert_eq, Hed0. simpl.
    by rewrite Hdec, delete_insert_id.
Qed.

Lemma only_own_highlight_decorateLine w0 w r :
  editor (this w) = editor (this w0) ->
  ids_given w -> single_highlight w ->
  only_own_highlight w0 w ->
  only_own_highlight w0 (decorateLine r (editor (this w0)) w).
Proof.
  intros Heditor Hids [_ Hrec] [Hothers Hown].
  destruct (editors w !! editor (this w0)) as [ed|] eqn:Hed;
    [|rewrite decorateLine_no_model by done; split; [done|]; rewrite Hed; exact Hown].
  destruct (decorateLine_result r _ w ed Hed) as (nid & last' & -> & Hcase).
  pose proof (next_id_free w _ ed Hids Hed) as Hfresh.
  split; simpl.
  - intros e He. rewrite lookup_insert_ne by done. by apply Hothers.
  - destruct (listed_cases w) as [(s & Hs & Htruthy & Hlisted)|[Hfalsy Hlisted]].
    + rewrite Hs in Hown.
      destruct Hown as (ed0 & ed' & d & Hed0 & Hed' & Hfree & Hdec).
      injection Hed' as <-. rewrite Hlisted in *. simpl in *.
      destruct Hcase as [(Hnid & _)|(-> & _ & _)].
      * injection Hnid as <-.
        eexists ed0, _, _. split_and!; [done|apply lookup_insert_eq|done|].
        simpl. by rewrite Hdec, delete_insert_id.
      * rewrite Hdec in Hfresh. apply lookup_insert_None in Hfresh as [Hfresh Hne].
        eexists ed0, _, _. split_and!; [done|apply lookup_insert_eq|done|].
        simpl. by rewrite Hdec, delete_insert_id.
    + rewrite Hlisted in *. simpl in *.
      destruct Hcase as [(Hnid & _)|(-> & _ & _)]; [done|].
      assert (rangeHighlightDecorationId (this w) = None) as Hnone.
      { destruct (rangeHighlightDecorationId (this w)) as [s|] eqn:Hs; [|done].
        destruct (Hrec s eq_refl) as [Htruthy _]. unfold truthy in Hfalsy. congruence. }
      rewrite Hnone in Hown. simpl in Hown.
      destruct (editors w0 !! editor (this w0)) as [ed0|] eqn:Hed0; [|done].
      injection Hown as Hown.
      eexists ed0, _, _. split_and!; [done|apply lookup_insert_eq|congruence|].
      simpl. by rewrite Hown.
Qed.

Lemma only_own_highlight_step w0 w ev :
  editor (this w) = editor (this w0) ->
  own_editor w ev ->
  ids_given w -> single_highlight w ->
  only_own_highlight w0 w ->
  only_own_highlight w0 (step w ev).
Proof.
  intros Heditor Hown Hids Hone Hooh.
  destruct ev as [opts|canceled|r e| |e sel|]; simpl in *.
  - by apply (only_own_highlight_same w0 w).
  - unfold close, onClose.
    set (hidden := mkWorld _ _ _ _).
    assert (only_own_highlight w0 (clearDecorations hidden)) as H1.
    { apply only_own_highlight_clearDecorations; [done|].
      by apply (only_own_highlight_same w0 w). }
    set (w1 := clearDecorations hidden) in *.
    set (w2 := match lastKnownEditorSelection (this w1) with
               | Some sel =>
                   if canceled
                   then revealRangeInCenterIfOutsideViewport (editor (this w1)) sel Smooth
                          (setSelection (editor (this w1)) sel w1)
                   else w1
               | None => w1
               end).
    assert (only_own_highlight w0 w2) as H2.
    { unfold w2. destruct (lastKnownEditorSelection (this w1)) as [sel|]; [|done].
      destruct canceled; [|done].
      apply (only_own_highlight_same w0 (setSelection (editor (this w1)) sel w1)); try done.
      by apply only_own_highlight_setSelection. }
    by apply (only_own_highlight_same w0 w2).
  - subst e. rewrite Heditor. by apply only_own_highlight_decorateLine.
  - by apply only_own_highlight_clearDecorations.
  - by apply only_own_highlight_setSelection.
  - by apply (only_own_highlight_same w0 w).
Qed.

Lemma only_own_highlight_steps w0 evs : forall w,
  editor (this w) = editor (this w0) ->
  Forall (own_editor w) evs ->
  ids_given w -> single_highlight w ->
  only_own_highlight w0 w ->
  only_own_highlight w0 (steps evs w).
Proof.
  unfold steps. induction evs as [|ev evs IH]; intros w Heditor Hown Hids Hone Hooh;
    simpl; [done|].
  apply Forall_cons in Hown as [Hev Hevs].
  destruct (step_preserves w ev Hev Hids Hone) as [Hids' Hone'].
  apply IH; try done.
  - by rewrite step_editor.
  - eapply Forall_impl; [exact Hevs|]. intros ev'.
    apply own_editor_same. by rewrite step_editor.
  - by apply only_own_highlight_step.
Qed.

(** X9. Starting with nothing on record, whatever is previewed in the
    controller's own editor and however often: once the decorations are
    cleared, every editor has the decorations it had at the start, no more
    and no fewer. *)
Theorem clearDecorations_restores_decorations (w : World) (evs : list Event) (e : nat) :
  ids_given w ->
  single_highlight w ->
  rangeHighlightDecorationId (this w) = None ->
  Forall (own_editor w) evs ->
  decorations <$> editors (clearDecorations (steps evs w)) !! e
  = decorations <$> editors w !! e.
Proof.
  intros Hids Hone Hnone Hown.
  assert (only_own_highlight w w) as Hstart.
  { split; [done|]. by rewrite Hnone. }
  pose proof (only_own_highlight_steps w evs w eq_refl Hown Hids Hone Hstart) as Hooh.
  apply only_own_highlight_clearDecorations in Hooh; [|apply steps_editor].
  destruct (steps_preserves evs w Hown Hids Hone) as [Hids' Hone'].
  destruct (clearDecorations_removes _ Hone') as [Hcleared _].
  destruct Hooh as [Hothers Hmine]. rewrite Hcleared in Hmine.
  destruct (decide (e = editor (this w))) as [->|Hne]; [done|by apply Hothers].
Qed.

(** X10. Clearing the decorations twice is clearing them once. *)
Theorem clearDecorations_idempotent (w : World) :
  clearDecorations (clearDecorations w) = clearDecorations w.
Proof.
  unfold clearDecorations at 2 3.
  destruct (truthy (rangeHighlightDecorationId (this w))) eqn:Htruthy.
  - destruct (editors w !! editor (this w)) as [ed|] eqn:Hed.
    + by rewrite deltaDecorations_none.
    + unfold clearDecorations. by rewrite Htruthy, Hed.
  - unfold clearDecorations. by rewrite Htruthy.
Qed.

(** X11. What was remembered does not outlive the widget: the [run] that
    follows a close remembers the selection the editor has then. *)
Theorem run_after_close_remembers_anew (w : World) (canceled : bool)
    (opts : IQuickOpenControllerOpts) :
  lastKnownEditorSelection (this (run opts (close canceled w)))
  = getSelection (editor (this w)) (close canceled w).
Proof.
  assert (editor (this (close canceled w)) = editor (this w)) as Heditor
    by apply (step_editor w (Close canceled)).
  assert (lastKnownEditorSelection (this (close canceled w)) = None) as Hnone
    by reflexivity.
  set (closed := close canceled w) in *. clearbody closed.
  unfold run; simpl. by rewrite Hnone, Heditor.
Qed.

Lemma decorateLine_selection r e w e' :
  getSelection e' (decorateLine r e w) = getSelection e' w.
Proof.
  destruct (editors w !! e) as [ed|] eqn:Hed; [|by rewrite decorateLine_no_model].
  destruct (decorateLine_result r e w ed Hed) as (id & last' & -> & _).
  unfold getSelection; simpl.
  destruct (decide (e' = e)) as [->|Hne].
  - by rewrite lookup_insert_eq, Hed.
  - by rewrite lookup_insert_ne.
Qed.

Lemma step_leaves_selections w ev e :
  leaves_selections ev -> getSelection e (step w ev) = getSelection e w.
Proof.
  intros Hleaves.
  destruct ev as [opts|canceled|r e'| |e' sel|]; simpl in *; try done.
  - destruct canceled; [done|]. unfold close, onClose.
    set (hidden := mkWorld _ _ _ _).
    destruct (clearDecorations_frame hidden) as (Hsame & _).
    destruct (lastKnownEditorSelection (this (clearDecorations hidden))); apply Hsame.
  - apply decorateLine_selection.
  - by destruct (clearDecorations_frame w) as (Hsame & _).
Qed.

(** X12. The controller changes no selection, except when the widget closes
    as canceled: over events that are neither such a close nor someone
    else's move, every editor keeps its selection. *)
Theorem selections_kept_unless_canceled (evs : list Event) (w : World) (e : nat) :
  Forall leaves_selections evs ->
  getSelection e (steps evs w) = getSelection e w.
Proof.
  unfold steps. revert w. induction evs as [|ev evs IH]; intros w Hleaves; simpl; [done|].
  apply Forall_cons in Hleaves as [Hev Hevs].
  rewrite IH by done. by apply step_leaves_selections.
Qed.

Lemma step_focused w ev :
  focused (step w ev)
  = focused w ++ match ev with Close _ => [editor (this w)] | _ => [] end.
Proof.
  destruct ev as [opts|canceled|r e| |e sel|]; simpl; rewrite ?app_nil_r; try done.
  - unfold close, onClose.
    set (hidden := mkWorld _ _ _ _).
    destruct (clearDecorations_frame hidden) as (_ & _ & Hfoc & Hed & _).
    destruct (lastKnownEditorSelection (this (clearDecorations hidden))), canceled;
      simpl; by rewrite Hfoc, Hed.
  - destruct (editors w !! e) as [ed|] eqn:Hed.
    + by destruct (decorateLine_result r e w ed Hed) as (id & last' & -> & _).
    + by rewrite decorateLine_no_model.
  - by destruct (clearDecorations_frame w) as (_ & _ & Hfoc & _).
Qed.

(** X13. The controller gives the focus to its own editor, once each time
    the widget closes, and at no other time and to no other editor. *)
Theorem focus_once_per_close (evs : list Event) (w : World) :
  focused (steps evs w) = focused w ++ replicate (closes evs) (editor (this w)).
Proof.
  unfold steps, closes. revert w.
  induction evs as [|ev evs IH]; intros w; simpl; [by rewrite app_nil_r|].
  rewrite IH, step_focused, step_editor, <- app_assoc. f_equal.
  by destruct ev.
Qed.

Lemma step_without_model w ev :
  stays_open ev ->
  editors w !! editor (this w) = None ->
  lastKnownEditorSelection (this w) = None ->
  editors (step w ev) !! editor (this w) = None
  /\ lastKnownEditorSelection (this (step w ev)) = None.
Proof.
  intros Hopen Hnone Hlast.
  destruct ev as [opts|canceled|r e| |e sel|]; simpl in *; try done.
  - unfold getSelection. by rewrite Hlast, Hnone.
  - destruct (editors w !! e) as [ed|] eqn:Hed; [|by rewrite decorateLine_no_model].
    destruct (decorateLine_result r e w ed Hed) as (id & last' & -> & _).
    simpl. split; [|done].
    rewrite lookup_insert_ne; [done|]. intros ->. congruence.
  - unfold clearDecorations. destruct (truthy _); [|done]. by rewrite Hnone.
  - split; [|done]. destruct (decide (e = editor (this w))) as [->|Hne].
    + by rewrite lookup_alter_eq, Hnone.
    + by rewrite lookup_alter_ne.
Qed.

(** X14. When the editor shows no model, [run] remembers nothing, and a
    widget that closes as canceled restores and reveals nothing: every
    editor keeps the selection it has. *)
Theorem cancel_without_model_restores_nothing (w : World) (opts : IQuickOpenControllerOpts)
    (evs : list Event) (e : nat) :
  lastKnownEditorSelection (this w) = None ->
  editors w !! editor (this w) = None ->
  Forall stays_open evs ->
  let opened := steps evs (run opts w) in
  lastKnownEditorSelection (this opened) = None /\
  getSelection e (close true opened) = getSelection e opened /\
  revealed (close true opened) = revealed opened.
Proof.
  intros Hlast Hnone Hopen opened.
  assert (editors opened !! editor (this opened) = None
          /\ lastKnownEditorSelection (this opened) = None) as [Hnone' Hlast'].
  { unfold opened, steps.
    assert (editors (run opts w) !! editor (this (run opts w)) = None
            /\ lastKnownEditorSelection (this (run opts w)) = None) as Hstart.
    { unfold run, getSelection; simpl. by rewrite Hlast, Hnone. }
    revert Hstart. generalize (run opts w) as w'. clear opened.
    induction evs as [|ev evs IH]; intros w' [Hn Hl]; simpl; [done|].
    apply Forall_cons in Hopen as [Hev Hevs]. apply IH; [done|].
    rewrite step_editor. by apply step_without_model. }
  split; [done|]. unfold close, onClose.
  set (hidden := mkWorld _ _ _ _).
  destruct (clearDecorations_frame hidden) as (Hsels & Hrev & _ & _ & Hl).
  simpl in Hl. rewrite Hl, Hlast'. simpl. split; [apply Hsels|exact Hrev].
Qed.

Lemma step_reveals_nothing w ev :
  not_canceled ev -> revealed (step w ev) = revealed w.
Proof.
  intros Hnot. destruct ev as [opts|canceled|r e| |e sel|]; simpl in *; try done.
  - destruct canceled; [done|]. unfold close, onClose.
    set (hidden := mkWorld _ _ _ _).
    destruct (clearDecorations_frame hidden) as (_ & Hrev & _).
    by destruct (lastKnownEditorSelection (this (clearDecorations hidden))).
  - destruct (editors w !! e) as [ed|] eqn:Hed.
    + by destruct (decorateLine_result r e w ed Hed) as (id & last' & -> & _).
    + by rewrite decorateLine_no_model.
  - by destruct (clearDecorations_frame w) as (_ & Hrev & _).
Qed.

(** X18. The controller asks an editor to reveal something only when the
    widget closes as canceled: over any other events nothing is
    revealed. *)
Theorem reveal_only_on_cancel (evs : list Event) (w : World) :
  Forall not_canceled evs ->
  revealed (steps evs w) = revealed w.
Proof.
  unfold steps. revert w. induction evs as [|ev evs IH]; intros w Hnot; simpl; [done|].
  apply Forall_cons in Hnot as [Hev Hevs].
  rewrite IH by done. by apply step_reveals_nothing.
Qed.

End QuickOpenTracesFacts.

Lemma clearDecorations_restores_decorations_witness :
  QuickOpen.decorations <$>
    QuickOpen.editors
      (QuickOpen.clearDecorations
         (QuickOpen.steps (QuickOpen.Run QuickOpenDemo.opts :: QuickOpenDemo.preview)
            QuickOpenDemo.world)) !! 0%nat
  = QuickOpen.decorations <$> QuickOpen.editors QuickOpenDemo.world !! 0%nat.
Proof.
  apply (clearDecorations_restores_decorations QuickOpenDemo.world
           (QuickOpen.Run QuickOpenDemo.opts :: QuickOpenDemo.preview) 0%nat).
  - exact demo_world_ids_given.
  - exact demo_world_single_highlight.
  - reflexivity.
  - repeat constructor.
Defined.

Lemma selections_kept_unless_canceled_witness :
  QuickOpen.getSelection 0 (QuickOpen.steps MoreDemo.chosen QuickOpenDemo.world)
  = QuickOpen.getSelection 0 QuickOpenDemo.world.
Proof.
  apply (selections_kept_unless_canceled MoreDemo.chosen QuickOpenDemo.world 0%nat).
  repeat constructor.
Defined.

Lemma cancel_without_model_restores_nothing_witness :
  let opened :=
    QuickOpen.steps
      [QuickOpen.DecorateLine (QuickOpenDemo.lineRange 2) 5;
       QuickOpen.SelectionMoved 1 (QuickOpenDemo.atLine 9)]
      (QuickOpen.run QuickOpenDemo.opts MoreDemo.detached) in
  QuickOpen.lastKnownEditorSelection (QuickOpen.this opened) = None /\
  QuickOpen.getSelection 1 (QuickOpen.close true opened) = QuickOpen.getSelection 1 opened /\
  QuickOpen.revealed (QuickOpen.close true opened) = QuickOpen.revealed opened.
Proof.
  apply (cancel_without_model_restores_nothing MoreDemo.detached QuickOpenDemo.opts
           [QuickOpen.DecorateLine (QuickOpenDemo.lineRange 2) 5;
            QuickOpen.SelectionMoved 1 (QuickOpenDemo.atLine 9)] 1%nat).
  - reflexivity.
  - reflexivity.
  - repeat constructor.
Defined.

Lemma reveal_only_on_cancel_witness :
  QuickOpen.revealed (QuickOpen.steps MoreDemo.chosen QuickOpenDemo.world)
  = QuickOpen.revealed QuickOpenDemo.world.
Proof.
  apply (reveal_only_on_cancel MoreDemo.chosen QuickOpenDemo.world).
  repeat constructor.
Defined.


(** ** Facts about [getEditOperation] *)

Section GetEditOperationFacts.

Import Core TestCommand.

(** The operations pushed before a command runs stay in front of those it
    adds. *)
Lemma perform_app (calls : Calls) : forall operations,
  perform editOperationBuilder calls operations
  = operations ++ perform editOperationBuilder calls [].
Proof.
  induction calls as [|r t next IH|r t next IH|sel next IH]; intros operations; simpl.
  - by rewrite app_nil_r.
  - rewrite IH, (IH [_]). by rewrite <- app_assoc.
  - rewrite IH, (IH [_]). by rewrite <- app_assoc.
  - apply IH.
Qed.

(** X15. Every operation [getEditOperation] returns has a [null] identifier
    and does not force markers to move, and there is one operation for each
    edit the command adds, tracked or not; [trackSelection] adds none. *)
Theorem getEditOperation_operations {Model : Type} (model : Model) (command : ICommand Model) :
  Forall (fun op => identifier op = None /\ forceMoveMarkers op = false)
         (getEditOperation model command) /\
  List.length (getEditOperation model command) = edits (getEditOperations command model).
Proof.
  unfold getEditOperation. generalize (getEditOperations command model) as calls.
  induction calls as [|r t next [IH1 IH2]|r t next [IH1 IH2]|sel next IH]; simpl.
  - by split.
  - rewrite perform_app. split.
    + apply Forall_app. split; [|done]. by repeat constructor.
    + rewrite length_app, IH2. done.
  - rewrite perform_app. split.
    + apply Forall_app. split; [|done]. by repeat constructor.
    + rewrite length_app, IH2. done.
  - apply IH.
Qed.

(** X16. [getEditOperation] keeps no trace of whether an edit was tracked: a
    command gets the same operations as the command that makes each of its
    tracked edits as a plain edit. *)
Theorem getEditOperation_forgets_tracking {Model : Type} (model : Model)
    (command : ICommand Model) :
  getEditOperation model (mkCommand (fun m => untracked (getEditOperations command m)))
  = getEditOperation model command.
Proof.
  unfold getEditOperation. simpl. generalize (getEditOperations command model) as calls.
  intros calls. generalize (@nil IIdentifiedSingleEditOperation) as operations.
  induction calls as [|r t next IH|r t next IH|sel next IH]; intros operations; simpl;
    auto.
Qed.

(** X17. A command never gets an id from [trackSelection]: it gets the same
    operations as the command that goes on after every [trackSelection] as
    it does after a [null]. *)
Theorem getEditOperation_tracks_nothing {Model : Type} (model : Model)
    (command : ICommand Model) :
  getEditOperation model (mkCommand (fun m => untold (getEditOperations command m)))
  = getEditOperation model command.
Proof.
  unfold getEditOperation. simpl. generalize (getEditOperations command model) as calls.
  intros calls. generalize (@nil IIdentifiedSingleEditOperation) as operations.
  induction calls as [|r t next IH|r t next IH|sel next IH]; intros operations; simpl;
    auto.
Qed.

End GetEditOperationFacts.

(** The demo command: the tracked replacement, then the branch for a [null]
    id. *)
Example getEditOperation_demo :
  TestCommand.getEditOperation tt MoreDemo.replaceAndMaybeDelete
  = [ TestCommand.mkOperation None (Core.mkRange 1 1 1 4) "let" false;
      TestCommand.mkOperation None (Core.mkRange 3 1 3 1) "// kept" false ].
Proof. reflexivity. Qed.
